(** * IMS-Toucan, PreprocessingForTTS/ProcessAudio.py

    A shallow embedding of the [AudioPreprocessor] class and of the parts of
    numpy, librosa, pyloudnorm and torchaudio it calls, followed by the
    properties of the pipeline.

    Number model.  A floating-point value is one of the IEEE-754 special
    values or a finite real.  The arithmetic on finite values is exact:
    rounding is idealised away, and so is overflow inside the arithmetic.
    The conversion of a float64 array to a float32 tensor keeps its
    overflow; the treatment of NaN and of the infinities is kept; signed
    zeros are not distinguished.  The properties are therefore stated with
    the operations of the code, or with a margin that rounding does not use
    up, and not with exact values that only exact arithmetic gives. *)

From Stdlib Require Import Reals Lra Lia ZArith List Bool Arith.
Import ListNotations.

Set Implicit Arguments.

(** ** Floating-point values *)

Module Float.

Local Open Scope R_scope.

Inductive fp : Type :=
| NaN
| NInf
| PInf
| Fin (r : R).

Definition is_nan (x : fp) : bool :=
  match x with NaN => true | _ => false end.

(** numpy.isfinite *)
Definition isfinite (x : fp) : bool :=
  match x with Fin _ => true | _ => false end.

Definition finite (x : fp) : Prop := isfinite x = true.

Definition of_Z (z : Z) : fp := Fin (IZR z).

Definition Rsign (r : R) : R :=
  if Rlt_dec 0 r then 1 else if Rlt_dec r 0 then -1 else 0.

Definition fneg (x : fp) : fp :=
  match x with
  | NaN => NaN
  | NInf => PInf
  | PInf => NInf
  | Fin r => Fin (- r)
  end.

Definition fadd (x y : fp) : fp :=
  match x, y with
  | NaN, _ | _, NaN => NaN
  | PInf, NInf | NInf, PInf => NaN
  | PInf, _ | _, PInf => PInf
  | NInf, _ | _, NInf => NInf
  | Fin a, Fin b => Fin (a + b)
  end.

Definition fsub (x y : fp) : fp := fadd x (fneg y).

(** An infinity scaled by a finite factor: NaN at zero, else the sign rule. *)
Definition inf_times (positive : bool) (r : R) : fp :=
  if Rlt_dec 0 r then (if positive then PInf else NInf)
  else if Rlt_dec r 0 then (if positive then NInf else PInf)
  else NaN.

Definition fmul (x y : fp) : fp :=
  match x, y with
  | NaN, _ | _, NaN => NaN
  | PInf, PInf | NInf, NInf => PInf
  | PInf, NInf | NInf, PInf => NInf
  | PInf, Fin r | Fin r, PInf => inf_times true r
  | NInf, Fin r | Fin r, NInf => inf_times false r
  | Fin a, Fin b => Fin (a * b)
  end.

Definition fdiv (x y : fp) : fp :=
  match x, y with
  | NaN, _ | _, NaN => NaN
  | (PInf | NInf), (PInf | NInf) => NaN
  | PInf, Fin b => if Rlt_dec b 0 then NInf else PInf
  | NInf, Fin b => if Rlt_dec b 0 then PInf else NInf
  | Fin _, (PInf | NInf) => Fin 0
  | Fin a, Fin b =>
      if Req_dec_T b 0 then inf_times true a else Fin (a / b)
  end.

Definition fabs (x : fp) : fp :=
  match x with
  | NaN => NaN
  | NInf | PInf => PInf
  | Fin r => Fin (Rabs r)
  end.

(** torch.sign, computed as [(0 < x) - (x < 0)]: both comparisons are false
    at NaN. *)
Definition fsign (x : fp) : fp :=
  match x with
  | NaN => Fin 0
  | NInf => Fin (-1)
  | PInf => Fin 1
  | Fin r => Fin (Rsign r)
  end.

(** numpy.maximum: a NaN operand is returned. *)
Definition np_maximum (x y : fp) : fp :=
  match x, y with
  | NaN, _ | _, NaN => NaN
  | PInf, _ | _, PInf => PInf
  | NInf, z | z, NInf => z
  | Fin a, Fin b => Fin (Rmax a b)
  end.

Definition fsqrt (x : fp) : fp :=
  match x with
  | NaN | NInf => NaN
  | PInf => PInf
  | Fin r => if Rlt_dec r 0 then NaN else Fin (sqrt r)
  end.

(** C99 hypot, which numpy.abs uses on complex entries: an infinite
    component wins over a NaN one. *)
Definition hypot (re im : fp) : fp :=
  match re, im with
  | (PInf | NInf), _ | _, (PInf | NInf) => PInf
  | _, _ => fsqrt (fadd (fmul re re) (fmul im im))
  end.

Definition flog (x : fp) : fp :=
  match x with
  | NaN | NInf => NaN
  | PInf => PInf
  | Fin r => if Rlt_dec 0 r then Fin (ln r)
             else if Rlt_dec r 0 then NaN else NInf
  end.

(** numpy.log10 *)
Definition np_log10 (x : fp) : fp := fdiv (flog x) (Fin (ln 10)).

(** torch.log1p *)
Definition log1p (x : fp) : fp := flog (fadd (Fin 1) x).

Definition fexp (x : fp) : fp :=
  match x with
  | NaN => NaN
  | NInf => Fin 0
  | PInf => PInf
  | Fin r => Fin (exp r)
  end.

(** numpy.power(10.0, x) *)
Definition np_power10 (x : fp) : fp := fexp (fmul x (Fin (ln 10))).

(** Truncation toward zero. *)
Definition Rtrunc (r : R) : Z :=
  if Rle_dec 0 r then Int_part r else (- Int_part (- r))%Z.

Definition int64_indefinite : Z := (- 2 ^ 63)%Z.

(** [.to(torch.int64)]: truncation; what does not fit (NaN and the
    infinities included) gives the x86-64 integer indefinite value. *)
Definition to_int64 (x : fp) : Z :=
  match x with
  | Fin r =>
      let z := Rtrunc r in
      if ((- 2 ^ 63 <=? z) && (z <? 2 ^ 63))%Z then z else int64_indefinite
  | _ => int64_indefinite
  end.

Definition fsum (l : list fp) : fp := fold_left fadd l (Fin 0).

(** The least magnitude that float32 cannot hold: half-way between the
    largest float32, 2^128 - 2^104, and 2^128.  From there on rounding to
    nearest gives an infinity. *)
Definition float32_overflow : R := 2 ^ 128 - 2 ^ 103.

(** Conversion of a value to float32. *)
Definition to_float32 (x : fp) : fp :=
  match x with
  | Fin r =>
      if Rlt_dec (Rabs r) float32_overflow then Fin r
      else if Rlt_dec 0 r then PInf else NInf
  | _ => x
  end.

End Float.

Export Float.

(** ** Python exceptions as an error monad *)

Inductive exception : Type :=
| TypeError
| ValueError
| ParameterError.   (* librosa.util.exceptions.ParameterError *)

Inductive result (A : Type) : Type :=
| Ok (a : A)
| Raise (e : exception).

Arguments Ok {A} a.
Arguments Raise {A} e.

Definition bind {A B : Type} (m : result A) (k : A -> result B) : result B :=
  match m with
  | Ok a => k a
  | Raise e => Raise e
  end.

Notation "x <- m ;; k" := (bind m (fun x => k))
  (at level 61, m at next level, right associativity).

Definition raises {A : Type} (m : result A) : Prop := exists e, m = Raise e.

(** ** numpy arrays and torch tensors *)

Module Numpy.

(** An array is its shape and its elements in row-major order. *)
Record ndarray (T : Type) : Type := mk_ndarray {
  shape : list nat;
  data : list T
}.

Definition ndim {T} (a : ndarray T) : nat := length (shape a).

Definition size_of (sh : list nat) : nat := fold_right Nat.mul 1%nat sh.

Definition well_formed {T} (a : ndarray T) : Prop :=
  length (data a) = size_of (shape a).

Definition amap {T U} (f : T -> U) (a : ndarray T) : ndarray U :=
  {| shape := shape a; data := map f (data a) |}.

Definition array1 {T} (l : list T) : ndarray T :=
  {| shape := [length l]; data := l |}.

(** The r x c array whose entry (i, j) is [f i j]. *)
Definition tabulate2 {T} (r c : nat) (f : nat -> nat -> T) : ndarray T :=
  {| shape := [r; c];
     data := flat_map (fun i => map (f i) (seq 0 c)) (seq 0 r) |}.

Definition ncols {T} (a : ndarray T) : nat := nth 1 (shape a) 0%nat.
Definition nrows {T} (a : ndarray T) : nat := nth 0 (shape a) 0%nat.

Definition get2 {T} (d : T) (a : ndarray T) (i j : nat) : T :=
  nth (i * ncols a + j) (data a) d.

(** numpy.transpose, and torch's [.transpose(0, 1)], on the 2-D arrays the
    source applies them to; an array of at most one axis is its own
    transpose. *)
Definition transpose {T} (d : T) (a : ndarray T) : ndarray T :=
  match shape a with
  | [r; c] => tabulate2 c r (fun j i => get2 d a i j)
  | _ => a
  end.

Definition np_abs (a : ndarray fp) : ndarray fp := amap fabs a.

Definition np_abs_complex (a : ndarray (fp * fp)) : ndarray fp :=
  amap (fun z => hypot (fst z) (snd z)) a.

(** numpy.amax over all elements; an empty array has no maximum. *)
Definition amax (a : ndarray fp) : result fp :=
  match data a with
  | [] => Raise ValueError
  | x :: rest => Ok (fold_left np_maximum rest x)
  end.

(** numpy.divide of an array by a scalar. *)
Definition divide (a : ndarray fp) (s : fp) : ndarray fp :=
  amap (fun v => fdiv v s) a.

(** numpy.maximum of a scalar and an array. *)
Definition maximum (s : fp) (a : ndarray fp) : ndarray fp :=
  amap (np_maximum s) a.

Definition log10 (a : ndarray fp) : ndarray fp := amap np_log10 a.

(** numpy.dot of two 2-D arrays; the inner sizes must agree. *)
Definition dot (a b : ndarray fp) : result (ndarray fp) :=
  if (ncols a =? nrows b)%nat then
    Ok (tabulate2 (nrows a) (ncols b)
          (fun i j =>
             fsum (map (fun k => fmul (get2 NaN a i k) (get2 NaN b k j))
                       (seq 0 (ncols a)))))
  else Raise ValueError.

(** numpy.mean(y, axis=0) of a 2-D array. *)
Definition mean_axis0 (y : ndarray fp) : ndarray fp :=
  {| shape := [ncols y];
     data := map (fun j =>
                    fdiv (fsum (map (fun i => get2 NaN y i j)
                                    (seq 0 (nrows y))))
                         (Fin (INR (nrows y))))
                 (seq 0 (ncols y)) |}.

Definition all_finite (a : ndarray fp) : bool := forallb isfinite (data a).

End Numpy.

Export Numpy.

(** ** librosa (0.8 series), the parts the source calls *)

Module Librosa.

Local Open Scope R_scope.

(** librosa.util.valid_audio: one axis, or two when [mono] is false (then
    with at least two channels), and finite everywhere. *)
Definition valid_audio (mono : bool) (y : ndarray fp) : result unit :=
  let shape_ok :=
    match shape y with
    | [_] => true
    | [channels; _] => negb mono && (2 <=? channels)%nat
    | _ => false
    end in
  if shape_ok && all_finite y then Ok tt else Raise ParameterError.

(** librosa.to_mono: validate, then average over the channel axis. *)
Definition to_mono (y : ndarray fp) : result (ndarray fp) :=
  _ <- valid_audio false y ;;
  Ok (if (1 <? ndim y)%nat then mean_axis0 y else y).

(** Position in a signal of length [L] of the sample that numpy's reflect
    padding puts at offset [j] (negative before the signal, [>= L] after):
    the signal is mirrored at both ends without repeating the edge, with
    period [2 (L - 1)]. *)
Definition reflect_index (L : nat) (j : Z) : nat :=
  if (L <=? 1)%nat then 0%nat
  else
    let p := (2 * (Z.of_nat L - 1))%Z in
    let m := (j mod p)%Z in
    Z.to_nat (if (m <? Z.of_nat L)%Z then m else (p - m)%Z).

(** numpy.pad(y, pad, mode="reflect") *)
Definition np_pad_reflect (y : list fp) (pad : nat) : result (list fp) :=
  match y, pad with
  | [], S _ => Raise ValueError
  | _, _ =>
      Ok (map (fun p => nth (reflect_index (length y)
                               (Z.of_nat p - Z.of_nat pad)) y NaN)
              (seq 0 (length y + 2 * pad)))
  end.

(** scipy.signal.get_window("hann", N, fftbins=True) *)
Definition hann (N n : nat) : R :=
  if (N <=? 1)%nat then 1
  else 1 / 2 - 1 / 2 * cos (2 * PI * INR n / INR N).

(** Sample [n] of frame [t] of librosa.util.frame, times the window. *)
Definition windowed (padded : list fp) (N hop t n : nat) : fp :=
  fmul (Fin (hann N n)) (nth (t * hop + n) padded NaN).

(** Bin [k] of numpy.fft.rfft of the windowed frame [t]. *)
Definition rfft_bin (padded : list fp) (N hop t k : nat) : fp * fp :=
  let angle n := 2 * PI * INR k * INR n / INR N in
  (fsum (map (fun n => fmul (windowed padded N hop t n) (Fin (cos (angle n))))
             (seq 0 N)),
   fsum (map (fun n => fmul (windowed padded N hop t n)
                            (Fin (- sin (angle n))))
             (seq 0 N))).

(** Number of frames librosa.util.frame cuts from [Lp] samples. *)
Definition frame_count (Lp N hop : nat) : nat := 1 + (Lp - N) / hop.

(** librosa.stft(y, n_fft, hop_length, win_length=None, window="hann",
    center=True, pad_mode="reflect"): the complex matrix with the
    [1 + n_fft // 2] frequency bins first and the frames second. *)
Definition stft (y : ndarray fp) (n_fft hop_length : nat)
  : result (ndarray (fp * fp)) :=
  _ <- valid_audio true y ;;
  padded <- np_pad_reflect (data y) (n_fft / 2) ;;
  if (length padded <? n_fft)%nat then Raise ParameterError
  else if (hop_length <? 1)%nat then Raise ParameterError
  else if (n_fft =? 0)%nat then Raise ValueError
  else
    Ok (tabulate2 (1 + n_fft / 2) (frame_count (length padded) n_fft hop_length)
          (fun k t => rfft_bin padded n_fft hop_length t k)).

(** librosa.filters.mel(sr, n_fft, n_mels, fmin, fmax): an
    [n_mels] x [1 + n_fft // 2] matrix of filter weights.  The weights
    themselves are a table of the library, [weights]; [float(sr)] rejects
    None. *)
Definition filters_mel
    (weights : Z -> nat -> nat -> R -> R -> nat -> nat -> R)
    (sr : option Z) (n_fft n_mels : nat) (fmin fmax : R)
  : result (ndarray fp) :=
  match sr with
  | None => Raise TypeError
  | Some rate =>
      Ok (tabulate2 n_mels (1 + n_fft / 2)
            (fun m k => Fin (weights rate n_fft n_mels fmin fmax m k)))
  end.

End Librosa.

(** ** pyloudnorm *)

Module Pyloudnorm.

Local Open Scope R_scope.

(** pyloudnorm.Meter(rate) *)
Inductive Meter : Type := mk_Meter (rate : Z).

(** pyloudnorm.normalize.loudness(data, input_loudness, target_loudness) *)
Definition normalize_loudness (data : ndarray fp)
    (input_loudness target_loudness : fp) : ndarray fp :=
  let delta_loudness := fsub target_loudness input_loudness in
  let gain := np_power10 (fdiv delta_loudness (Fin 20)) in
  amap (fun v => fmul gain v) data.

End Pyloudnorm.

(** ** torchaudio *)

Module Torchaudio.

Local Open Scope R_scope.

(** torchaudio.transforms.Vad(sample_rate) *)
Inductive Vad : Type := mk_Vad (sample_rate : Z).

(** torchaudio.transforms.MuLawEncoding(quantization_channels=256) *)
Inductive MuLawEncoding : Type := mk_MuLawEncoding (quantization_channels : Z).

(** torchaudio.transforms.MuLawDecoding(quantization_channels=256) *)
Inductive MuLawDecoding : Type := mk_MuLawDecoding (quantization_channels : Z).

(** torchaudio.functional.mu_law_encoding, on one sample. *)
Definition mu_law_encoding (quantization_channels : Z) (x : fp) : Z :=
  let mu := Fin (IZR quantization_channels - 1) in
  let x_mu := fdiv (fmul (fsign x) (log1p (fmul mu (fabs x)))) (log1p mu) in
  to_int64 (fadd (fmul (fdiv (fadd x_mu (Fin 1)) (Fin 2)) mu) (Fin (1 / 2))).

(** torchaudio.functional.mu_law_decoding, on one code. *)
Definition mu_law_decoding (quantization_channels : Z) (x_mu : Z) : fp :=
  let mu := Fin (IZR quantization_channels - 1) in
  let x := fsub (fmul (fdiv (of_Z x_mu) mu) (Fin 2)) (Fin 1) in
  fdiv (fmul (fsign x) (fsub (fexp (fmul (fabs x) (log1p mu))) (Fin 1))) mu.

Definition encode (m : MuLawEncoding) (x : ndarray fp) : ndarray Z :=
  let 'mk_MuLawEncoding q := m in amap (mu_law_encoding q) x.

Definition decode (m : MuLawDecoding) (x : ndarray Z) : ndarray fp :=
  let 'mk_MuLawDecoding q := m in amap (mu_law_decoding q) x.

End Torchaudio.

(** ** The collaborators that stay opaque

    Voice-activity detection, rate conversion, the loudness meter and the
    table of mel filter weights are used through their interface only. *)

Record Collaborators : Type := {
  (** [Vad.forward] *)
  vad_forward : Torchaudio.Vad -> ndarray fp -> result (ndarray fp);
  (** [Resample(orig_freq, new_freq).forward] *)
  resample_forward : Z -> Z -> ndarray fp -> result (ndarray fp);
  (** [Meter.integrated_loudness] *)
  integrated_loudness : Pyloudnorm.Meter -> ndarray fp -> result fp;
  (** the entries of [librosa.filters.mel] *)
  mel_weights : Z -> nat -> nat -> R -> R -> nat -> nat -> R
}.

(** ** class AudioPreprocessor *)

Module ProcessAudio.

Local Open Scope R_scope.

(** [self.resample]: the identity lambda or a torchaudio [Resample]. *)
Inductive resampler : Type :=
| Identity
| Resample (orig_freq new_freq : Z).

Record AudioPreprocessor : Type := {
  sr : Z;
  new_sr : option Z;
  hop_length : nat;
  n_fft : nat;
  mel_buckets : nat;
  vad : Torchaudio.Vad;
  mu_encode : Torchaudio.MuLawEncoding;
  mu_decode : Torchaudio.MuLawDecoding;
  meter : Pyloudnorm.Meter;
  final_sr : Z;
  resample : resampler
}.

(** [output_sr is not None and output_sr != input_sr] *)
Definition needs_resampling (input_sr : Z) (output_sr : option Z) : bool :=
  match output_sr with
  | Some o => negb (o =? input_sr)%Z
  | None => false
  end.

Definition __init__ (input_sr : Z) (output_sr : option Z)
    (melspec_buckets hop_length n_fft : nat) : AudioPreprocessor :=
  {| sr := input_sr;
     new_sr := output_sr;
     hop_length := hop_length;
     n_fft := n_fft;
     mel_buckets := melspec_buckets;
     vad := Torchaudio.mk_Vad input_sr;
     mu_encode := Torchaudio.mk_MuLawEncoding 256;
     mu_decode := Torchaudio.mk_MuLawDecoding 256;
     meter := Pyloudnorm.mk_Meter input_sr;
     final_sr :=
       match output_sr with
       | Some o => if needs_resampling input_sr output_sr then o else input_sr
       | None => input_sr
       end;
     resample :=
       match output_sr with
       | Some o =>
           if needs_resampling input_sr output_sr then Resample input_sr o
           else Identity
       | None => Identity
       end |}.

(** The default arguments of [__init__]. *)
Definition default_melspec_buckets : nat := 80.
Definition default_hop_length : nat := 256.
Definition default_n_fft : nat := 1024.

(** [torch.Tensor(audio)]: a float32 tensor, every value of the array
    converted to float32. *)
Definition torch_Tensor (audio : ndarray fp) : ndarray fp :=
  amap to_float32 audio.

(** [audio.numpy()]: the same values. *)
Definition numpy (audio : ndarray fp) : ndarray fp := audio.

(** What [audio_to_wave_tensor] returns: a float tensor or a tensor of
    mu-law codes. *)
Inductive wave_tensor : Type :=
| FloatTensor (t : ndarray fp)
| LongTensor (t : ndarray Z).

(** The default arguments of [logmelfilterbank]. *)
Definition default_fmin : option R := Some 40.
Definition default_fmax : option R := Some 8000.
Definition default_eps : R := 1 / 10 ^ 10.

Section Methods.

Variable ext : Collaborators.
Variable self : AudioPreprocessor.

Definition apply_resample (x : ndarray fp) : result (ndarray fp) :=
  match resample self with
  | Identity => Ok x
  | Resample orig_freq new_freq => resample_forward ext orig_freq new_freq x
  end.

Definition apply_mu_law (audio : ndarray fp) : ndarray Z :=
  Torchaudio.encode (mu_encode self) audio.

Definition cut_silence_from_beginning (audio : ndarray fp)
  : result (ndarray fp) :=
  vad_forward ext (vad self) (torch_Tensor audio).

Definition to_mono (x : ndarray fp) : result (ndarray fp) :=
  if (length (shape x) =? 2)%nat then Librosa.to_mono (transpose NaN x)
  else Ok x.

Definition normalize_loudness (audio : ndarray fp) : result (ndarray fp) :=
  loudness <- integrated_loudness ext (meter self) audio ;;
  let loud_normed :=
    Pyloudnorm.normalize_loudness audio loudness (Fin (- 30)) in
  peak <- amax (np_abs loud_normed) ;;
  let peak_normed := divide loud_normed peak in
  Ok peak_normed.

Definition logmelfilterbank (audio : ndarray fp) (sampling_rate : option Z)
    (fmin fmax : option R) (eps : R) : result (ndarray fp) :=
  let audio := numpy audio in
  x_stft <- Librosa.stft audio (n_fft self) (hop_length self) ;;
  let spc := transpose NaN (np_abs_complex x_stft) in
  let fmin := match fmin with None => 0 | Some f => f end in
  fmax <- match fmax with
          | Some f => Ok f
          | None => match sampling_rate with
                    | Some rate => Ok (IZR rate / 2)
                    | None => Raise TypeError
                    end
          end ;;
  mel_basis <- Librosa.filters_mel (mel_weights ext) sampling_rate
                 (n_fft self) (mel_buckets self) fmin fmax ;;
  energies <- dot spc (transpose NaN mel_basis) ;;
  Ok (transpose NaN (torch_Tensor (log10 (maximum (Fin eps) energies)))).

Definition mel_spec_orig_sr (audio : ndarray fp) : result (ndarray fp) :=
  logmelfilterbank audio (Some (sr self)) default_fmin default_fmax
    default_eps.

Definition mel_spec_new_sr (audio : ndarray fp) : result (ndarray fp) :=
  logmelfilterbank audio (new_sr self) default_fmin default_fmax default_eps.

Definition normalize_audio (audio : ndarray fp) : result (ndarray fp) :=
  audio <- to_mono audio ;;
  audio <- normalize_loudness audio ;;
  audio <- cut_silence_from_beginning audio ;;
  audio <- apply_resample audio ;;
  Ok audio.

Definition audio_to_wave_tensor (audio : ndarray fp) (normalize mulaw : bool)
  : result wave_tensor :=
  if mulaw then
    if normalize then
      a <- normalize_audio audio ;; Ok (LongTensor (apply_mu_law a))
    else Ok (LongTensor (apply_mu_law (torch_Tensor audio)))
  else
    if normalize then a <- normalize_audio audio ;; Ok (FloatTensor a)
    else Ok (FloatTensor (torch_Tensor audio)).

Definition audio_to_mel_spec_tensor (audio : ndarray fp) (normalize : bool)
  : result (ndarray fp) :=
  if normalize then
    a <- normalize_audio audio ;;
    mel_spec_new_sr
      (Torchaudio.decode (mu_decode self)
         (Torchaudio.encode (mu_encode self) a))
  else
    mel_spec_orig_sr
      (Torchaudio.decode (mu_decode self)
         (Torchaudio.encode (mu_encode self) (torch_Tensor audio))).

End Methods.

End ProcessAudio.

Export ProcessAudio.

(** ** The specification's reading of the pipeline

    The steps of [normalize_audio] as the specification words them, written
    on the frames x channels layout of the input and without the calls of
    the code. *)

Module Spec.

Local Open Scope R_scope.

(** The loudness target, in LUFS. *)
Definition target_lufs : R := - 30.

(** Step 1.  The mean of the channels of one frame of a waveform stored
    frame by frame. *)
Definition frame_mean (channels : nat) (samples : list fp) (frame : nat)
  : fp :=
  fdiv (fsum (map (fun c => nth (frame * channels + c) samples NaN)
                  (seq 0 channels)))
       (Fin (INR channels)).

Definition mixed_down (frames channels : nat) (samples : list fp)
  : ndarray fp :=
  {| shape := [frames];
     data := map (frame_mean channels samples) (seq 0 frames) |}.

(** "Mix to mono if multi-channel": a waveform of two or more channels
    becomes the sequence of its frame means, any other waveform is kept. *)
Definition mix_if_multichannel (audio : ndarray fp) : ndarray fp :=
  match shape audio with
  | [frames; channels] =>
      if (2 <=? channels)%nat then mixed_down frames channels (data audio)
      else audio
  | _ => audio
  end.

(** What the mixdown of the code accepts: of the waveforms with two axes,
    those with two or more channels and finite samples only. *)
Definition accepted (audio : ndarray fp) : bool :=
  match shape audio with
  | [_; channels] => (2 <=? channels)%nat && forallb isfinite (data audio)
  | _ => true
  end.

(** Step 1 with that restriction. *)
Definition mix_to_mono (audio : ndarray fp) : result (ndarray fp) :=
  if accepted audio then Ok (mix_if_multichannel audio)
  else Raise ParameterError.

(** Step 2.  The gain that moves a measured loudness to the target, a
    difference in decibels: 10 to the power (target - measured) / 20. *)
Definition gain_to_target (measured : fp) : fp :=
  match measured with
  | NaN => NaN
  | NInf => PInf
  | PInf => Fin 0
  | Fin l => Fin (Rpower 10 ((target_lufs - l) / 20))
  end.

Definition rescale_to_target (measured : fp) (audio : ndarray fp)
  : ndarray fp :=
  amap (fmul (gain_to_target measured)) audio.

(** The peak absolute amplitude; no sample, no peak. *)
Definition peak (samples : list fp) : result fp :=
  match samples with
  | [] => Raise ValueError
  | v :: rest =>
      Ok (fold_left (fun m x => np_maximum m (fabs x)) rest (fabs v))
  end.

Definition divide_by_peak (audio : ndarray fp) : result (ndarray fp) :=
  p <- peak (data audio) ;;
  Ok (amap (fun v => fdiv v p) audio).

(** Step 4: identity when the output rate is unset or equals the input
    rate, rate conversion otherwise. *)
Definition to_output_rate (ext : Collaborators) (input_sr : Z)
    (output_sr : option Z) (audio : ndarray fp) : result (ndarray fp) :=
  match output_sr with
  | None => Ok audio
  | Some o =>
      if (o =? input_sr)%Z then Ok audio
      else resample_forward ext input_sr o audio
  end.

(** The four steps on every waveform, in order, and nothing else. *)
Definition four_steps (ext : Collaborators) (input_sr : Z)
    (output_sr : option Z) (audio : ndarray fp) : result (ndarray fp) :=
  let mono := mix_if_multichannel audio in
  measured <- integrated_loudness ext (Pyloudnorm.mk_Meter input_sr) mono ;;
  levelled <- divide_by_peak (rescale_to_target measured mono) ;;
  trimmed <- vad_forward ext (Torchaudio.mk_Vad input_sr) levelled ;;
  to_output_rate ext input_sr output_sr trimmed.

(** The four steps on the waveforms the mixdown accepts, with the
    conversion to a float32 tensor that precedes the trimming. *)
Definition normalize_audio (ext : Collaborators) (input_sr : Z)
    (output_sr : option Z) (audio : ndarray fp) : result (ndarray fp) :=
  mono <- mix_to_mono audio ;;
  measured <- integrated_loudness ext (Pyloudnorm.mk_Meter input_sr) mono ;;
  levelled <- divide_by_peak (rescale_to_target measured mono) ;;
  trimmed <- vad_forward ext (Torchaudio.mk_Vad input_sr)
               (amap to_float32 levelled) ;;
  to_output_rate ext input_sr output_sr trimmed.

(** The companded value of an amplitude, the scale on which the mu-law
    codes are equally spaced. *)
Definition compand (x : R) : R := Rsign x * ln (1 + 255 * Rabs x) / ln 256.

(** Its inverse, from the companded scale back to amplitudes. *)
Definition expand (y : R) : R := Rsign y * (exp (Rabs y * ln 256) - 1) / 255.

(** "The bound holds almost everywhere" implies that every interval of
    amplitudes contains a point where it holds. *)
Definition roundtrip_within_step_almost_everywhere : Prop :=
  forall a b : R, - 1 <= a -> a < b -> b <= 1 ->
    exists x r, a <= x <= b /\
      Torchaudio.mu_law_decoding 256 (Torchaudio.mu_law_encoding 256 (Fin x))
      = Fin r /\ Rabs (r - x) < 2 / 256.

End Spec.

(** A stand-in for the opaque collaborators, to run the pipeline on concrete
    inputs: detection and conversion return their input, the meter reports
    the loudness of digital silence, the filter weights are flat. *)
Definition stand_in : Collaborators :=
  {| vad_forward := fun _ x => Ok x;
     resample_forward := fun _ _ x => Ok x;
     integrated_loudness := fun _ _ => Ok NInf;
     mel_weights := fun _ _ _ _ _ _ _ => 1%R |}.

(** A stand-in whose meter reports a given loudness. *)
Definition metered (loudness : fp) : Collaborators :=
  {| vad_forward := fun _ x => Ok x;
     resample_forward := fun _ _ x => Ok x;
     integrated_loudness := fun _ _ => Ok loudness;
     mel_weights := fun _ _ _ _ _ _ _ => 1%R |}.

(** The peak absolute amplitude of finite samples, the value
    [numpy.amax(numpy.abs(.))] has on them. *)
Definition peak_abs (xs : list R) : R :=
  match map Rabs xs with
  | [] => 0%R
  | a :: rest => fold_left Rmax rest a
  end.

(** What the peak of samples that are not finite can be. *)
Definition undefined_peak (v : fp) : Prop := v = PInf \/ v = NaN.

(** ** [visualize_cleaning]

    The figure is what is handed to librosa.display.specshow: one panel per
    call, with the spectrogram drawn, the sample rate given for its axes,
    the axis it is drawn on and the title set on that axis (the colour map
    and the axis kinds are the same in both calls). *)

Module Plotting.

Inductive title : Type :=
| Uncleaned_Audio
| Cleaned_Audio.

Record panel : Type := {
  shown : ndarray fp;
  shown_sr : Z;
  ax : nat;
  panel_title : title
}.

Definition visualize_cleaning (ext : Collaborators) (self : AudioPreprocessor)
    (unclean_audio : ndarray fp) : result (list panel) :=
  unclean_audio_mono <- to_mono unclean_audio ;;
  unclean_spec <-
    audio_to_mel_spec_tensor ext self unclean_audio_mono false ;;
  clean_spec <- audio_to_mel_spec_tensor ext self unclean_audio_mono true ;;
  let uncleaned :=
    {| shown := numpy unclean_spec; shown_sr := sr self; ax := 0%nat;
       panel_title := Uncleaned_Audio |} in
  let cleaned :=
    match new_sr self with
    | Some rate =>
        {| shown := numpy clean_spec; shown_sr := rate; ax := 1%nat;
           panel_title := Cleaned_Audio |}
    | None =>
        {| shown := numpy clean_spec; shown_sr := sr self; ax := 1%nat;
           panel_title := Cleaned_Audio |}
    end in
  Ok [uncleaned; cleaned].

End Plotting.

(** * Properties *)

(** ** Arrays built entry by entry *)

Section Tabulate.

Context {T : Type}.

Lemma flat_rows_length (c : nat) (f : nat -> nat -> T) (n s : nat) :
  length (flat_map (fun i => map (f i) (seq 0 c)) (seq s n)) = (n * c)%nat.
Proof.
  revert s; induction n as [|n IH]; intros s; simpl; [reflexivity|].
  rewrite length_app, length_map, length_seq, IH. reflexivity.
Qed.

Lemma flat_rows_nth (c : nat) (f : nat -> nat -> T) (d : T) (n s i j : nat) :
  (i < n)%nat -> (j < c)%nat ->
  nth (i * c + j) (flat_map (fun i => map (f i) (seq 0 c)) (seq s n)) d
  = f (s + i)%nat j.
Proof.
  revert s i; induction n as [|n IH]; intros s i Hi Hj; [lia|].
  simpl. destruct i as [|i].
  - rewrite app_nth1 by (rewrite length_map, length_seq; simpl; lia).
    simpl. rewrite (nth_indep _ d (f s 0%nat))
      by (rewrite length_map, length_seq; lia).
    rewrite map_nth, seq_nth by lia. f_equal; lia.
  - rewrite app_nth2 by (rewrite length_map, length_seq; simpl; lia).
    rewrite length_map, length_seq.
    replace (S i * c + j - c)%nat with (i * c + j)%nat by (simpl; lia).
    rewrite IH by lia. f_equal; lia.
Qed.

Lemma tabulate2_well_formed (r c : nat) (f : nat -> nat -> T) :
  well_formed (tabulate2 r c f).
Proof.
  unfold well_formed, tabulate2; simpl.
  rewrite flat_rows_length. lia.
Qed.

Lemma get2_tabulate2 (d : T) (r c : nat) (f : nat -> nat -> T) (i j : nat) :
  (i < r)%nat -> (j < c)%nat -> get2 d (tabulate2 r c f) i j = f i j.
Proof.
  intros Hi Hj. unfold get2, ncols, tabulate2; simpl.
  apply flat_rows_nth; assumption.
Qed.

Lemma Forall_tabulate2 (P : T -> Prop) (r c : nat) (f : nat -> nat -> T) :
  (forall i j, (i < r)%nat -> (j < c)%nat -> P (f i j)) ->
  Forall P (data (tabulate2 r c f)).
Proof.
  intros H. unfold tabulate2; simpl.
  apply Forall_flat_map, Forall_forall. intros i Hi.
  apply Forall_map, Forall_forall. intros j Hj.
  apply in_seq in Hi, Hj. apply H; lia.
Qed.

Lemma Forall_amap {U : Type} (P : T -> Prop) (Q : U -> Prop) (g : T -> U)
    (a : ndarray T) :
  (forall v, P v -> Q (g v)) -> Forall P (data a) -> Forall Q (data (amap g a)).
Proof.
  intros Hg Ha. unfold amap; simpl. apply Forall_map.
  eapply Forall_impl; [|exact Ha]. exact Hg.
Qed.

(** The entries of a transposed matrix are entries of the matrix. *)
Lemma Forall_transpose (P : T -> Prop) (d : T) (a : ndarray T) :
  well_formed a -> Forall P (data a) -> Forall P (data (transpose d a)).
Proof.
  intros Hwf Ha. unfold transpose.
  destruct (shape a) as [|r [|c [|x rest]]] eqn:Hs; try exact Ha.
  apply Forall_tabulate2. intros j i Hj Hi.
  unfold get2, ncols. rewrite Hs; simpl.
  rewrite Forall_forall in Ha. apply Ha, nth_In.
  unfold well_formed in Hwf. rewrite Hwf, Hs. simpl. nia.
Qed.

End Tabulate.

(** ** The model on small inputs *)

Local Open Scope R_scope.

Example np_pad_reflect_example :
  Librosa.np_pad_reflect [Fin 1; Fin 2; Fin 3] 2
  = Ok [Fin 3; Fin 2; Fin 1; Fin 2; Fin 3; Fin 2; Fin 1].
Proof. reflexivity. Qed.

Example np_pad_reflect_single :
  Librosa.np_pad_reflect [Fin 5] 2 = Ok [Fin 5; Fin 5; Fin 5; Fin 5; Fin 5].
Proof. reflexivity. Qed.

Example frame_count_one_second :
  Librosa.frame_count (16000 + 2 * (1024 / 2)) 1024 256 = 63%nat.
Proof. vm_compute. reflexivity. Qed.

Example transpose_example :
  transpose NaN
    {| shape := [2; 3]%nat;
       data := [Fin 1; Fin 2; Fin 3; Fin 4; Fin 5; Fin 6] |}
  = {| shape := [3; 2]%nat;
       data := [Fin 1; Fin 4; Fin 2; Fin 5; Fin 3; Fin 6] |}.
Proof. reflexivity. Qed.

(** Two frames of two channels: each frame becomes the mean of its
    channels. *)
Example to_mono_stereo :
  to_mono {| shape := [2; 2]%nat; data := [Fin 1; Fin 3; Fin 5; Fin 7] |}
  = Ok {| shape := [2]%nat; data := [Fin 2; Fin 6] |}.
Proof.
  unfold to_mono, Librosa.to_mono, Librosa.valid_audio, mean_axis0.
  cbn -[fdiv fsum INR]. unfold fsum. cbn [fold_left fadd].
  unfold fdiv. cbn [INR].
  destruct (Req_dec_T (1 + 1) 0) as [H|_]; [lra|].
  do 3 f_equal; [|f_equal]; f_equal; lra.
Qed.

Close Scope R_scope.

(** ** The error monad *)

Lemma bind_Ok {A B : Type} (a : A) (k : A -> result B) :
  bind (Ok a) k = k a.
Proof. reflexivity. Qed.

Lemma bind_ret {A : Type} (m : result A) : bind m (fun a => Ok a) = m.
Proof. destruct m; reflexivity. Qed.

Lemma bind_raises {A B : Type} (m : result A) (k : A -> result B) :
  (forall a, raises (k a)) -> raises (bind m k).
Proof.
  intros H. destruct m as [a|e]; simpl; [apply H|].
  exists e; reflexivity.
Qed.

(** ** The composite accessors *)

Lemma resample_is_to_output_rate
    (ext : Collaborators) (input_sr : Z) (output_sr : option Z)
    (melspec_buckets hop n : nat) (audio : ndarray fp) :
  apply_resample ext (__init__ input_sr output_sr melspec_buckets hop n) audio
  = Spec.to_output_rate ext input_sr output_sr audio.
Proof.
  unfold apply_resample, Spec.to_output_rate; simpl.
  destruct output_sr as [o|]; simpl; [|reflexivity].
  destruct (o =? input_sr)%Z; reflexivity.
Qed.

(** ** Conversion to float32 *)

Lemma float32_overflow_above_one : (1 < float32_overflow)%R.
Proof. unfold float32_overflow. lra. Qed.

Lemma to_float32_in_range (r : R) :
  (Rabs r < float32_overflow)%R -> to_float32 (Fin r) = Fin r.
Proof.
  intros H. unfold to_float32.
  destruct (Rlt_dec (Rabs r) float32_overflow); [reflexivity|contradiction].
Qed.

Lemma to_float32_unit (r : R) :
  (- 1 <= r <= 1)%R -> to_float32 (Fin r) = Fin r.
Proof.
  intros H. apply to_float32_in_range.
  pose proof float32_overflow_above_one.
  apply Rle_lt_trans with 1%R; [apply Rabs_le; exact H|assumption].
Qed.

Lemma torch_Tensor_unit (sh : list nat) (xs : list R) :
  Forall (fun x => - 1 <= x <= 1)%R xs ->
  torch_Tensor {| shape := sh; data := map Fin xs |}
  = {| shape := sh; data := map Fin xs |}.
Proof.
  intros H. unfold torch_Tensor, amap. cbn [shape data]. f_equal.
  rewrite map_map. apply map_ext_in. intros x Hx.
  rewrite Forall_forall in H. apply to_float32_unit, H, Hx.
Qed.


(** C7, as amended: [audio_to_wave_tensor] returns one of four results,
    chosen by the two flags: the raw waveform converted to a float32 tensor,
    the normalized waveform, the mu-law codes of the converted raw waveform,
    the mu-law codes of the normalized waveform. *)
Theorem audio_to_wave_tensor_four_cases
    (ext : Collaborators) (input_sr : Z) (output_sr : option Z)
    (melspec_buckets hop n : nat) (audio : ndarray fp) :
  let self := __init__ input_sr output_sr melspec_buckets hop n in
  audio_to_wave_tensor ext self audio false false
  = Ok (FloatTensor (amap to_float32 audio))
  /\
  audio_to_wave_tensor ext self audio true false
  = (a <- normalize_audio ext self audio ;; Ok (FloatTensor a))
  /\
  audio_to_wave_tensor ext self audio false true
  = Ok (LongTensor
          (amap (Torchaudio.mu_law_encoding 256) (amap to_float32 audio)))
  /\
  audio_to_wave_tensor ext self audio true true
  = (a <- normalize_audio ext self audio ;;
     Ok (LongTensor (amap (Torchaudio.mu_law_encoding 256) a))).
Proof.
  intros self. unfold audio_to_wave_tensor, apply_mu_law, torch_Tensor.
  repeat split; reflexivity.
Qed.

(** C7, as stated, fails: with both flags off the waveform does not come
    back unchanged.  A sample of 2^130, a float64 beyond the float32 range,
    comes back as plus infinity. *)
Lemma audio_to_wave_tensor_raw_counterexample :
  let self := __init__ 16000 None 80 256 1024 in
  let audio := array1 [Fin (2 ^ 130)%R] in
  audio_to_wave_tensor stand_in self audio false false
  = Ok (FloatTensor (array1 [PInf])) /\
  audio_to_wave_tensor stand_in self audio false false
  <> Ok (FloatTensor audio).
Proof.
  assert (H : to_float32 (Fin (2 ^ 130)%R) = PInf).
  { unfold to_float32, float32_overflow.
    rewrite Rabs_pos_eq by (apply pow_le; lra).
    destruct (Rlt_dec (2 ^ 130) (2 ^ 128 - 2 ^ 103)) as [Hlt|_]; [lra|].
    destruct (Rlt_dec 0 (2 ^ 130)) as [_|Hn]; [reflexivity|].
    contradiction Hn. apply pow_lt; lra. }
  cbv zeta. unfold audio_to_wave_tensor, torch_Tensor, amap, array1.
  cbn [shape data map length]. rewrite H.
  split; [reflexivity|]. discriminate.
Qed.

(** ** Mono mixdown *)

Lemma to_mono_keeps_other_ranks (x : ndarray fp) :
  ndim x <> 2%nat -> to_mono x = Ok x.
Proof.
  unfold to_mono, ndim. intros H.
  destruct (Nat.eqb_spec (length (shape x)) 2); [contradiction|reflexivity].
Qed.

Lemma librosa_to_mono_rank (y m : ndarray fp) :
  Librosa.to_mono y = Ok m -> ndim y = 2%nat -> ndim m = 1%nat.
Proof.
  unfold Librosa.to_mono. intros H Hy.
  destruct (Librosa.valid_audio false y); simpl in H; [|discriminate].
  rewrite Hy in H. simpl in H. injection H as <-. reflexivity.
Qed.

Lemma transpose_rank {T : Type} (d : T) (a : ndarray T) :
  ndim (transpose d a) = ndim a.
Proof.
  unfold transpose, ndim.
  destruct (shape a) as [|r [|c [|x rest]]] eqn:Hs; rewrite ?Hs; reflexivity.
Qed.

(** C8: [to_mono] returns a 1-D array unchanged, and applying it twice is
    the same as applying it once. *)
Theorem to_mono_idempotent :
  (forall (n : nat) (samples : list fp),
      to_mono {| shape := [n]; data := samples |}
      = Ok {| shape := [n]; data := samples |})
  /\
  (forall x : ndarray fp, (y <- to_mono x ;; to_mono y) = to_mono x).
Proof.
  split; [reflexivity|].
  intros x. destruct (Nat.eq_dec (ndim x) 2) as [H2|H2].
  - destruct (to_mono x) as [y|e] eqn:Hx; simpl; [|reflexivity].
    apply to_mono_keeps_other_ranks.
    unfold to_mono in Hx. unfold ndim in H2. rewrite H2 in Hx. simpl in Hx.
    apply librosa_to_mono_rank in Hx.
    + rewrite Hx. discriminate.
    + rewrite transpose_rank. exact H2.
  - rewrite (to_mono_keeps_other_ranks x H2). simpl.
    apply to_mono_keeps_other_ranks, H2.
Qed.

(** C6: an array with three axes is not rejected: [to_mono] returns it as
    it is, with its three axes, and [audio_to_wave_tensor] with both flags
    off returns it as a float tensor. *)
Theorem to_mono_passes_three_axes :
  let x := {| shape := [1; 1; 1]%nat; data := [Fin 0] |} in
  to_mono x = Ok x /\ ndim x = 3%nat /\
  forall ext self, audio_to_wave_tensor ext self x false false
                   = Ok (FloatTensor x).
Proof.
  cbv zeta. split; [reflexivity|]. split; [reflexivity|].
  intros ext self. unfold audio_to_wave_tensor, torch_Tensor, amap.
  cbn [shape data map]. rewrite to_float32_unit by lra. reflexivity.
Qed.

(** ** Loudness normalization of silence *)

Local Open Scope R_scope.

Lemma fmul_zero (g : fp) : fmul g (Fin 0) = NaN \/ fmul g (Fin 0) = Fin 0.
Proof.
  destruct g as [| | |g]; simpl; unfold inf_times.
  - left; reflexivity.
  - left. destruct (Rlt_dec 0 0); [lra|]. reflexivity.
  - left. destruct (Rlt_dec 0 0); [lra|]. reflexivity.
  - right. f_equal. ring.
Qed.

Lemma amax_repeat (v : fp) (k : nat) :
  np_maximum v v = v -> fold_left np_maximum (repeat v k) v = v.
Proof.
  intros H. induction k as [|k IH]; simpl; [reflexivity|].
  rewrite H. exact IH.
Qed.

Lemma amax_of_constant (v : fp) (sh : list nat) (k : nat) :
  np_maximum v v = v ->
  amax {| shape := sh; data := repeat v (S k) |} = Ok v.
Proof.
  intros H. unfold amax. cbn [data repeat].
  rewrite amax_repeat by exact H. reflexivity.
Qed.

Lemma zero_over_zero : fdiv (Fin 0) (Fin 0) = NaN.
Proof.
  simpl. destruct (Req_dec_T 0 0) as [_|H]; [|contradiction H; reflexivity].
  unfold inf_times. destruct (Rlt_dec 0 0); [lra|]. reflexivity.
Qed.

(** C2: on digital silence [normalize_loudness] does not skip the rescaling:
    whatever loudness the meter reports, the samples times the gain are
    divided by their peak, zero or NaN, and every sample of the result is
    NaN; [normalize_audio] hands that array of NaN to the voice-activity
    detector. *)
Theorem normalize_loudness_of_silence_is_nan
    (ext : Collaborators) (self : AudioPreprocessor) (k : nat) :
  let silence := array1 (repeat (Fin 0) (S k)) in
  let undefined := array1 (repeat NaN (S k)) in
  normalize_loudness ext self silence
  = (_ <- integrated_loudness ext (meter self) silence ;; Ok undefined)
  /\
  normalize_audio ext self silence
  = (_ <- integrated_loudness ext (meter self) silence ;;
     trimmed <- cut_silence_from_beginning ext self undefined ;;
     apply_resample ext self trimmed).
Proof.
  intros silence undefined.
  assert (H : normalize_loudness ext self silence
              = (_ <- integrated_loudness ext (meter self) silence ;;
                 Ok undefined)).
  { unfold normalize_loudness.
    destruct (integrated_loudness ext (meter self) silence) as [loudness|e];
      [|reflexivity].
    cbn [bind].
    unfold Pyloudnorm.normalize_loudness, np_abs, divide, amap.
    set (g := np_power10 _).
    unfold undefined, silence, array1. cbn [shape data].
    rewrite !map_repeat, !repeat_length.
    destruct (fmul_zero g) as [-> | ->].
    - change (fabs NaN) with NaN.
      rewrite amax_of_constant by reflexivity.
      cbn [bind]. rewrite map_repeat. reflexivity.
    - change (fabs (Fin 0)) with (Fin (Rabs 0)). rewrite Rabs_R0.
      rewrite amax_of_constant
        by (simpl; rewrite Rmax_left by lra; reflexivity).
      cbn [bind]. rewrite map_repeat, zero_over_zero. reflexivity. }
  split; [exact H|].
  unfold normalize_audio.
  replace (to_mono silence) with (Ok silence) by reflexivity.
  cbn [bind]. rewrite H.
  destruct (integrated_loudness ext (meter self) silence); [|reflexivity].
  cbn [bind].
  destruct (cut_silence_from_beginning ext self undefined); [|reflexivity].
  cbn [bind]. apply bind_ret.
Qed.

(** ** Finite values *)

Lemma isfinite_Fin (x : fp) : isfinite x = true -> exists r, x = Fin r.
Proof. destruct x; try discriminate. intros _. eexists; reflexivity. Qed.

Lemma isfinite_fadd (x y : fp) :
  isfinite x = true -> isfinite y = true -> isfinite (fadd x y) = true.
Proof. destruct x, y; try discriminate; reflexivity. Qed.

Lemma isfinite_fmul (x y : fp) :
  isfinite x = true -> isfinite y = true -> isfinite (fmul x y) = true.
Proof. destruct x, y; try discriminate; reflexivity. Qed.

Lemma isfinite_fold_fadd (l : list fp) (acc : fp) :
  isfinite acc = true -> Forall (fun v => isfinite v = true) l ->
  isfinite (fold_left fadd l acc) = true.
Proof.
  revert acc; induction l as [|v l IH]; intros acc Hacc Hl; simpl.
  - exact Hacc.
  - inversion Hl; subst. apply IH; [apply isfinite_fadd|]; assumption.
Qed.

Lemma isfinite_fsum (l : list fp) :
  Forall (fun v => isfinite v = true) l -> isfinite (fsum l) = true.
Proof. apply isfinite_fold_fadd. reflexivity. Qed.

Lemma isfinite_hypot (re im : fp) :
  isfinite re = true -> isfinite im = true -> isfinite (hypot re im) = true.
Proof.
  destruct re as [| | |a], im as [| | |b]; try discriminate. intros _ _.
  simpl. destruct (Rlt_dec (a * a + b * b) 0); [nra|reflexivity].
Qed.

Lemma isfinite_nth (l : list fp) (i : nat) :
  Forall (fun v => isfinite v = true) l -> (i < length l)%nat ->
  isfinite (nth i l NaN) = true.
Proof.
  intros Hl Hi. rewrite Forall_forall in Hl. apply Hl, nth_In, Hi.
Qed.

(** ** Shapes *)

Lemma shape_transpose {T : Type} (d : T) (a : ndarray T) (r c : nat) :
  shape a = [r; c] -> shape (transpose d a) = [c; r].
Proof. unfold transpose. intros ->. reflexivity. Qed.

Lemma well_formed_transpose {T : Type} (d : T) (a : ndarray T) (r c : nat) :
  shape a = [r; c] -> well_formed (transpose d a).
Proof. unfold transpose. intros ->. apply tabulate2_well_formed. Qed.

Lemma well_formed_amap {T U : Type} (g : T -> U) (a : ndarray T) :
  well_formed a -> well_formed (amap g a).
Proof.
  unfold well_formed, amap; simpl. rewrite length_map. exact (fun H => H).
Qed.

Lemma get2_entry {T : Type} (P : T -> Prop) (d : T) (a : ndarray T)
    (r c i j : nat) :
  well_formed a -> shape a = [r; c] -> (i < r)%nat -> (j < c)%nat ->
  Forall P (data a) -> P (get2 d a i j).
Proof.
  intros Hwf Hs Hi Hj Ha. unfold get2, ncols. rewrite Hs; simpl.
  rewrite Forall_forall in Ha. apply Ha, nth_In.
  unfold well_formed in Hwf. rewrite Hwf, Hs; simpl. nia.
Qed.

(** ** The short-time Fourier transform *)

Lemma valid_audio_mono_inv (y : ndarray fp) :
  Librosa.valid_audio true y = Ok tt ->
  (exists len, shape y = [len]) /\ all_finite y = true.
Proof.
  unfold Librosa.valid_audio.
  destruct (shape y) as [|len [|c [|x rest]]]; simpl; try discriminate.
  destruct (all_finite y); [|discriminate]. intros _. split; eauto.
Qed.

Lemma valid_audio_mono_intro (samples : list fp) :
  forallb isfinite samples = true ->
  Librosa.valid_audio true (array1 samples) = Ok tt.
Proof.
  intros H. unfold Librosa.valid_audio, all_finite, array1; simpl.
  rewrite H. reflexivity.
Qed.

Lemma reflect_index_bound (L : nat) (j : Z) :
  (1 <= L)%nat -> (Librosa.reflect_index L j < L)%nat.
Proof.
  intros HL. unfold Librosa.reflect_index.
  destruct (Nat.leb_spec L 1); [lia|].
  set (p := (2 * (Z.of_nat L - 1))%Z).
  assert (Hm : (0 <= j mod p < p)%Z) by (apply Z.mod_pos_bound; lia).
  destruct (Z.ltb_spec (j mod p) (Z.of_nat L)); lia.
Qed.

Lemma np_pad_reflect_inv (y padded : list fp) (pad : nat) :
  Librosa.np_pad_reflect y pad = Ok padded ->
  length padded = (length y + 2 * pad)%nat /\
  (Forall (fun v => isfinite v = true) y -> (1 <= length y)%nat ->
   Forall (fun v => isfinite v = true) padded).
Proof.
  intros H.
  assert (Hp : padded
               = map (fun p => nth (Librosa.reflect_index (length y)
                                      (Z.of_nat p - Z.of_nat pad)) y NaN)
                     (seq 0 (length y + 2 * pad))).
  { unfold Librosa.np_pad_reflect in H.
    destruct y as [|v y], pad as [|pad]; try discriminate;
      injection H as <-; reflexivity. }
  subst padded. split.
  - rewrite length_map, length_seq. reflexivity.
  - intros Hy HL. apply Forall_map, Forall_forall. intros p _.
    apply isfinite_nth; [exact Hy|]. apply reflect_index_bound, HL.
Qed.

Lemma np_pad_reflect_ok (y : list fp) (pad : nat) :
  (1 <= length y)%nat ->
  exists padded, Librosa.np_pad_reflect y pad = Ok padded.
Proof.
  intros HL. unfold Librosa.np_pad_reflect.
  destruct y as [|v y]; [simpl in HL; lia|].
  destruct pad; eexists; reflexivity.
Qed.

Lemma stft_inv (y : ndarray fp) (N hop : nat) (m : ndarray (fp * fp)) :
  Librosa.stft y N hop = Ok m ->
  all_finite y = true /\
  exists padded,
    Librosa.np_pad_reflect (data y) (N / 2) = Ok padded /\
    (1 <= N <= length padded)%nat /\ (1 <= hop)%nat /\
    m = tabulate2 (1 + N / 2) (Librosa.frame_count (length padded) N hop)
          (fun k t => Librosa.rfft_bin padded N hop t k).
Proof.
  unfold Librosa.stft. intros H.
  destruct (Librosa.valid_audio true y) as [[]|e] eqn:Hv; [|discriminate].
  apply valid_audio_mono_inv in Hv. destruct Hv as [_ Hfin].
  cbn [bind] in H.
  destruct (Librosa.np_pad_reflect (data y) (N / 2)) as [padded|e] eqn:Hp;
    [|discriminate].
  cbn [bind] in H.
  destruct (Nat.ltb_spec (length padded) N); [discriminate|].
  destruct (Nat.ltb_spec hop 1); [discriminate|].
  destruct (Nat.eqb_spec N 0); [discriminate|].
  injection H as <-. split; [exact Hfin|].
  exists padded. repeat split; try lia.
Qed.

Lemma stft_ok (samples : list fp) (N hop : nat) :
  forallb isfinite samples = true -> (1 <= length samples)%nat ->
  (1 <= N)%nat -> (1 <= hop)%nat ->
  exists m, Librosa.stft (array1 samples) N hop = Ok m /\
    shape m = [(1 + N / 2)%nat;
               Librosa.frame_count (length samples + 2 * (N / 2)) N hop].
Proof.
  intros Hfin HL HN Hhop. unfold Librosa.stft.
  rewrite valid_audio_mono_intro by exact Hfin. cbn [bind array1 data].
  destruct (np_pad_reflect_ok samples (N / 2) HL) as [padded Hp].
  rewrite Hp. cbn [bind].
  apply np_pad_reflect_inv in Hp. destruct Hp as [Hlen _].
  assert (N <= length padded)%nat.
  { rewrite Hlen. pose proof (Nat.div_mod_eq N 2).
    pose proof (Nat.mod_upper_bound N 2). lia. }
  destruct (Nat.ltb_spec (length padded) N); [lia|].
  destruct (Nat.ltb_spec hop 1); [lia|].
  destruct (Nat.eqb_spec N 0); [lia|].
  eexists; split; [reflexivity|]. rewrite Hlen. reflexivity.
Qed.

(** Every sample a frame reads lies inside the padded signal. *)
Lemma frame_sample_in_range (Lp N hop t j : nat) :
  (N <= Lp)%nat -> (1 <= hop)%nat ->
  (t < Librosa.frame_count Lp N hop)%nat -> (j < N)%nat ->
  (t * hop + j < Lp)%nat.
Proof.
  unfold Librosa.frame_count. intros HN Hhop Ht Hj.
  assert (t <= (Lp - N) / hop)%nat by lia.
  assert (hop * ((Lp - N) / hop) <= Lp - N)%nat
    by (apply Nat.Div0.mul_div_le).
  nia.
Qed.

Lemma isfinite_rfft_bin (padded : list fp) (N hop t k : nat) :
  Forall (fun v => isfinite v = true) padded ->
  (N <= length padded)%nat -> (1 <= hop)%nat ->
  (t < Librosa.frame_count (length padded) N hop)%nat ->
  isfinite (fst (Librosa.rfft_bin padded N hop t k)) = true /\
  isfinite (snd (Librosa.rfft_bin padded N hop t k)) = true.
Proof.
  intros Hp HN Hhop Ht. unfold Librosa.rfft_bin; simpl.
  split; apply isfinite_fsum, Forall_map, Forall_forall; intros j Hj;
    apply in_seq in Hj; apply isfinite_fmul; try reflexivity;
    unfold Librosa.windowed; apply isfinite_fmul; try reflexivity;
    apply isfinite_nth; try exact Hp;
    apply frame_sample_in_range with (N := N); lia.
Qed.

(** ** The log-mel filterbank *)

Local Open Scope R_scope.

Lemma ln_10_pos : 0 < ln 10.
Proof. rewrite <- ln_1. apply ln_increasing; lra. Qed.

Section Filterbank.

Variable ext : Collaborators.
Variable self : AudioPreprocessor.

Lemma logmelfilterbank_ok (samples : list fp) (rate : Z)
    (fmin fmax : option R) (eps : R) :
  forallb isfinite samples = true -> (1 <= length samples)%nat ->
  (1 <= n_fft self)%nat -> (1 <= hop_length self)%nat ->
  exists out,
    logmelfilterbank ext self (array1 samples) (Some rate) fmin fmax eps
    = Ok out /\
    shape out
    = [mel_buckets self;
       Librosa.frame_count (length samples + 2 * (n_fft self / 2))
         (n_fft self) (hop_length self)] /\
    well_formed out.
Proof.
  intros Hfin HL HN Hhop. unfold logmelfilterbank, numpy, torch_Tensor.
  destruct (stft_ok samples Hfin HL HN Hhop) as [m [Hm Hsm]].
  rewrite Hm. cbn [bind].
  assert (Hfmax : exists f,
             match fmax with
             | Some f => Ok f
             | None => Ok (IZR rate / 2)
             end = Ok f) by (destruct fmax; eauto).
  destruct Hfmax as [f ->]. cbn [bind Librosa.filters_mel].
  unfold dot, nrows, ncols.
  rewrite (shape_transpose NaN (np_abs_complex m) Hsm).
  cbn [shape transpose tabulate2 nth]. rewrite Nat.eqb_refl. cbn [bind].
  eexists. split; [reflexivity|].
  split; [reflexivity|apply tabulate2_well_formed].
Qed.

End Filterbank.

(** C4, as amended: for a mono waveform of finite samples of length
    L >= n_fft, with n_fft and hop_length positive and a sampling rate
    given, [logmelfilterbank] returns a well-formed 2-D array of shape
    (mel_buckets, frames), mel buckets first, with
    1 + (L + 2 (n_fft // 2) - n_fft) // hop_length frames, which is
    1 + L // hop_length when n_fft is even. *)
Theorem logmelfilterbank_shape
    (ext : Collaborators) (self : AudioPreprocessor) (samples : list fp)
    (sampling_rate : Z) :
  forallb isfinite samples = true ->
  (n_fft self <= length samples)%nat ->
  (1 <= n_fft self)%nat -> (1 <= hop_length self)%nat ->
  exists out,
    logmelfilterbank ext self (array1 samples) (Some sampling_rate)
      default_fmin default_fmax default_eps = Ok out /\
    well_formed out /\
    shape out
    = [mel_buckets self;
       (1 + (length samples + 2 * (n_fft self / 2) - n_fft self)
            / hop_length self)%nat] /\
    (Nat.even (n_fft self) = true ->
     shape out
     = [mel_buckets self; (1 + length samples / hop_length self)%nat]).
Proof.
  intros Hfin HL HN Hhop.
  destruct (logmelfilterbank_ok ext self samples sampling_rate default_fmin
              default_fmax default_eps Hfin) as [out [H [Hs Hw]]]; try lia.
  exists out. split; [exact H|]. split; [exact Hw|].
  split; [exact Hs|]. intros Heven.
  rewrite Hs. unfold Librosa.frame_count.
  apply Nat.even_spec in Heven. destruct Heven as [half Hhalf].
  assert (Hpad : (2 * (n_fft self / 2) = n_fft self)%nat).
  { rewrite Hhalf, (Nat.mul_comm 2 half), Nat.div_mul by lia. lia. }
  rewrite Hpad.
  replace (length samples + n_fft self - n_fft self)%nat
    with (length samples) by lia.
  reflexivity.
Qed.

Lemma logmelfilterbank_shape_witness :
  exists out,
    logmelfilterbank stand_in (__init__ 16000 None 80 256 1024)
      (array1 (repeat (Fin 0) 4096)) (Some 16000%Z) default_fmin
      default_fmax default_eps = Ok out /\
    well_formed out /\ shape out = [80; 17]%nat.
Proof.
  destruct (@logmelfilterbank_shape stand_in
              (__init__ 16000 None 80 256 1024) (repeat (Fin 0) 4096)
              16000) as [out [H [Hw [_ Hs]]]].
  - reflexivity.
  - rewrite repeat_length. apply Nat.leb_le. reflexivity.
  - apply Nat.leb_le. reflexivity.
  - apply Nat.leb_le. reflexivity.
  - exists out. split; [exact H|]. split; [exact Hw|].
    rewrite (Hs eq_refl), repeat_length. reflexivity.
Defined.

(** C4, as stated, fails for an odd n_fft: with n_fft = 3 and
    hop_length = 1 a waveform of three samples gives three frames, not
    1 + 3 // 1 = 4. *)
Lemma frame_count_odd_n_fft_counterexample :
  exists out,
    logmelfilterbank stand_in (__init__ 16000 None 80 1 3)
      (array1 [Fin 0; Fin 0; Fin 0]) (Some 16000%Z) default_fmin default_fmax
      default_eps = Ok out /\
    (n_fft (__init__ 16000 None 80 1 3) <= 3)%nat /\
    shape out = [80; 3]%nat /\
    shape out <> [80; 1 + 3 / hop_length (__init__ 16000 None 80 1 3)]%nat.
Proof.
  destruct (logmelfilterbank_ok stand_in (__init__ 16000 None 80 1 3)
              [Fin 0; Fin 0; Fin 0] 16000 default_fmin default_fmax
              default_eps) as [out [H [Hs _]]];
    try reflexivity; try (simpl; lia).
  exists out. split; [exact H|]. split; [simpl; lia|].
  rewrite Hs. split; [reflexivity|discriminate].
Qed.

(** C10: built with [output_sr] unset, the preprocessor hands
    [sampling_rate = None] to the filterbank on the normalized path, not the
    input rate, and [audio_to_mel_spec_tensor] with normalize=True raises
    for every input. *)
Theorem mel_spec_without_output_rate_raises
    (ext : Collaborators) (input_sr : Z) (melspec_buckets hop n : nat)
    (audio : ndarray fp) :
  let self := __init__ input_sr None melspec_buckets hop n in
  (forall a, mel_spec_new_sr ext self a
             = logmelfilterbank ext self a None default_fmin default_fmax
                 default_eps) /\
  (forall a, raises (logmelfilterbank ext self a None default_fmin
                       default_fmax default_eps)) /\
  raises (audio_to_mel_spec_tensor ext self audio true) /\
  final_sr self = input_sr.
Proof.
  intros self.
  assert (Hmel : forall a, raises (logmelfilterbank ext self a None
                              default_fmin default_fmax default_eps)).
  { intros a. unfold logmelfilterbank. apply bind_raises. intros m.
    cbn [default_fmax bind Librosa.filters_mel].
    exists TypeError; reflexivity. }
  split; [reflexivity|]. split; [exact Hmel|]. split; [|reflexivity].
  unfold audio_to_mel_spec_tensor. apply bind_raises. intros a. apply Hmel.
Qed.

(** ** The mu-law codec *)

Lemma flog_pos (r : R) : 0 < r -> flog (Fin r) = Fin (ln r).
Proof. intros H. unfold flog. destruct (Rlt_dec 0 r); [reflexivity|lra]. Qed.

Lemma fdiv_Fin (a b : R) : b <> 0 -> fdiv (Fin a) (Fin b) = Fin (a / b).
Proof.
  intros H. unfold fdiv. destruct (Req_dec_T b 0); [contradiction|reflexivity].
Qed.

Lemma ln_256_pos : 0 < ln 256.
Proof. rewrite <- ln_1. apply ln_increasing; lra. Qed.

Lemma mu_law_encoding_real (x : R) :
  Torchaudio.mu_law_encoding 256 (Fin x)
  = to_int64 (Fin ((Spec.compand x + 1) / 2 * 255 + 1 / 2)).
Proof.
  pose proof ln_256_pos as H256. pose proof (Rabs_pos x) as Hx.
  unfold Torchaudio.mu_law_encoding, log1p. cbn [fsign fabs fmul fadd].
  replace (256 - 1) with 255 by lra. replace (1 + 255) with 256 by lra.
  rewrite !flog_pos by nra. cbn [fmul].
  rewrite fdiv_Fin by lra. cbn [fadd].
  rewrite fdiv_Fin by lra. cbn [fmul fadd].
  reflexivity.
Qed.

Lemma mu_law_decoding_real (k : Z) :
  Torchaudio.mu_law_decoding 256 k
  = Fin (Spec.expand (IZR k / 255 * 2 - 1)).
Proof.
  pose proof ln_256_pos as H256.
  unfold Torchaudio.mu_law_decoding, log1p, of_Z, fsub.
  replace (256 - 1) with 255 by lra.
  rewrite fdiv_Fin by lra. cbn [fmul fneg fadd fsign fabs].
  replace (1 + 255) with 256 by lra.
  rewrite flog_pos by lra. cbn [fmul fexp fadd].
  rewrite fdiv_Fin by lra.
  reflexivity.
Qed.

Lemma ln_monotone (a b : R) : 0 < a -> a <= b -> ln a <= ln b.
Proof.
  intros Ha [Hlt|Heq]; [left; apply ln_increasing; assumption|].
  rewrite Heq. right; reflexivity.
Qed.

Lemma Rsign_cases (x : R) :
  (0 < x /\ Rsign x = 1 /\ Rabs x = x) \/
  (x < 0 /\ Rsign x = - 1 /\ Rabs x = - x) \/
  (x = 0 /\ Rsign x = 0 /\ Rabs x = 0).
Proof.
  unfold Rsign. destruct (Rlt_dec 0 x) as [Hp|Hp].
  - left. repeat split; [exact Hp|]. apply Rabs_pos_eq; lra.
  - destruct (Rlt_dec x 0) as [Hn|Hn].
    + right; left. repeat split; [exact Hn|]. apply Rabs_left; exact Hn.
    + right; right. assert (x = 0) by lra. subst. rewrite Rabs_R0. auto.
Qed.

(** The companded magnitude, between 0 and 1 on amplitudes in [-1, 1]. *)
Lemma compand_magnitude (x : R) :
  Rabs x <= 1 -> 0 <= ln (1 + 255 * Rabs x) / ln 256 <= 1.
Proof.
  intros Hx. pose proof ln_256_pos as H256. pose proof (Rabs_pos x) as H0.
  assert (H1 : 0 <= ln (1 + 255 * Rabs x))
    by (rewrite <- ln_1; apply ln_monotone; lra).
  assert (H2 : ln (1 + 255 * Rabs x) <= ln 256)
    by (apply ln_monotone; lra).
  split.
  - apply Rmult_le_pos; [exact H1|left; apply Rinv_0_lt_compat, H256].
  - apply Rmult_le_reg_r with (ln 256); [exact H256|].
    unfold Rdiv. rewrite Rmult_assoc, Rinv_l by lra. lra.
Qed.

Lemma compand_range (x : R) : - 1 <= x <= 1 -> - 1 <= Spec.compand x <= 1.
Proof.
  intros Hx. assert (Ha : Rabs x <= 1) by (apply Rabs_le; lra).
  pose proof (compand_magnitude x Ha) as Hq. unfold Spec.compand.
  replace (Rsign x * ln (1 + 255 * Rabs x) / ln 256)
    with (Rsign x * (ln (1 + 255 * Rabs x) / ln 256))
    by (unfold Rdiv; ring).
  destruct (Rsign_cases x) as [[_ [-> _]]|[[_ [-> _]]|[_ [-> _]]]]; lra.
Qed.

Lemma exp_ln_256 : exp (ln 256) = 256.
Proof. apply exp_ln; lra. Qed.

(** [compand] undoes [expand]. *)
Lemma compand_expand (y : R) : Spec.compand (Spec.expand y) = y.
Proof.
  pose proof ln_256_pos as H256. unfold Spec.expand.
  destruct (Rsign_cases y) as [[Hy [-> ->]]|[[Hy [-> ->]]|[Hy [-> ->]]]].
  - assert (He : 1 < exp (y * ln 256)).
    { rewrite <- exp_0. apply exp_increasing. nra. }
    set (e := exp (y * ln 256)) in *. unfold Spec.compand.
    destruct (Rsign_cases (1 * (e - 1) / 255))
      as [[Hs [-> ->]]|[[Hs _]|[Hs _]]]; try lra.
    replace (1 + 255 * (1 * (e - 1) / 255)) with e by lra.
    unfold e. rewrite ln_exp. field. lra.
  - assert (He : 1 < exp (- y * ln 256)).
    { rewrite <- exp_0. apply exp_increasing. nra. }
    set (e := exp (- y * ln 256)) in *. unfold Spec.compand.
    destruct (Rsign_cases (- 1 * (e - 1) / 255))
      as [[Hs _]|[[Hs [-> ->]]|[Hs _]]]; try lra.
    replace (1 + 255 * - (- 1 * (e - 1) / 255)) with e by lra.
    unfold e. rewrite ln_exp. field. lra.
  - subst y. unfold Spec.compand.
    replace (0 * (exp (0 * ln 256) - 1) / 255) with 0 by lra.
    destruct (Rsign_cases 0) as [[Hs _]|[[Hs _]|[_ [-> _]]]]; lra.
Qed.

(** [expand] undoes [compand]. *)
Lemma expand_compand (x : R) : Spec.expand (Spec.compand x) = x.
Proof.
  pose proof ln_256_pos as H256. unfold Spec.compand.
  destruct (Rsign_cases x) as [[Hx [-> ->]]|[[Hx [-> ->]]|[Hx [-> ->]]]].
  - assert (Hl : 0 < ln (1 + 255 * x))
      by (rewrite <- ln_1; apply ln_increasing; lra).
    assert (Hq : 0 < 1 * ln (1 + 255 * x) / ln 256).
    { apply Rdiv_lt_0_compat; lra. }
    unfold Spec.expand.
    destruct (Rsign_cases (1 * ln (1 + 255 * x) / ln 256))
      as [[Hs [-> ->]]|[[Hs _]|[Hs _]]]; try lra.
    replace (1 * ln (1 + 255 * x) / ln 256 * ln 256) with (ln (1 + 255 * x))
      by (field; lra).
    rewrite exp_ln by lra. lra.
  - assert (Hl : 0 < ln (1 + 255 * - x))
      by (rewrite <- ln_1; apply ln_increasing; lra).
    assert (Hq : - 1 * ln (1 + 255 * - x) / ln 256 < 0).
    { replace (- 1 * ln (1 + 255 * - x) / ln 256)
        with (- (ln (1 + 255 * - x) / ln 256)) by (field; lra).
      apply Ropp_lt_gt_0_contravar, Rdiv_lt_0_compat; lra. }
    unfold Spec.expand.
    destruct (Rsign_cases (- 1 * ln (1 + 255 * - x) / ln 256))
      as [[Hs _]|[[Hs [-> ->]]|[Hs _]]]; try lra.
    replace (- (- 1 * ln (1 + 255 * - x) / ln 256) * ln 256)
      with (ln (1 + 255 * - x)) by (field; lra).
    rewrite exp_ln by lra. lra.
  - subst x. unfold Spec.expand.
    replace (0 * ln (1 + 255 * 0) / ln 256) with 0 by (field; lra).
    destruct (Rsign_cases 0) as [[Hs _]|[[Hs _]|[_ [-> _]]]]; lra.
Qed.

Lemma expand_range (y : R) : - 1 <= y <= 1 -> - 1 <= Spec.expand y <= 1.
Proof.
  intros Hy. pose proof ln_256_pos as H256. pose proof exp_ln_256 as He.
  assert (Ha : 0 <= Rabs y <= 1)
    by (split; [apply Rabs_pos|apply Rabs_le; lra]).
  assert (H1 : 1 <= exp (Rabs y * ln 256)).
  { rewrite <- exp_0. destruct (Req_dec_T (Rabs y * ln 256) 0) as [->|Hne];
      [lra|]. left. apply exp_increasing. nra. }
  assert (H2 : exp (Rabs y * ln 256) <= 256).
  { rewrite <- He at 2.
    destruct (Req_dec_T (Rabs y * ln 256) (ln 256)) as [->|Hne]; [lra|].
    left. apply exp_increasing. nra. }
  unfold Spec.expand.
  destruct (Rsign_cases y) as [[_ [-> _]]|[[_ [-> _]]|[_ [-> _]]]]; lra.
Qed.

(** The code of an amplitude in [-1, 1] is the floor of its companded value
    moved to [0.5, 255.5]. *)
Lemma mu_law_code (x : R) :
  - 1 <= x <= 1 ->
  let u := (Spec.compand x + 1) / 2 * 255 + 1 / 2 in
  let k := Torchaudio.mu_law_encoding 256 (Fin x) in
  (0 <= k <= 255)%Z /\ IZR k <= u < IZR k + 1.
Proof.
  intros Hx u k. pose proof (compand_range Hx) as HF.
  assert (Hu : 1 / 2 <= u <= 255 + 1 / 2) by (unfold u; lra).
  assert (Hk : k = Int_part u).
  { unfold k. rewrite mu_law_encoding_real. fold u.
    unfold to_int64, Rtrunc. destruct (Rle_dec 0 u); [|lra].
    pose proof (base_Int_part u) as [Hb1 Hb2].
    assert (- 1 < Int_part u)%Z by (apply lt_IZR; lra).
    assert (Int_part u < 256)%Z by (apply lt_IZR; lra).
    cbv zeta.
    destruct (Z.leb_spec (- 2 ^ 63) (Int_part u)); [|lia].
    destruct (Z.ltb_spec (Int_part u) (2 ^ 63)); [|lia].
    reflexivity. }
  pose proof (base_Int_part u) as [Hb1 Hb2]. rewrite Hk.
  split; [|lra].
  assert (- 1 < Int_part u)%Z by (apply lt_IZR; lra).
  assert (Int_part u < 256)%Z by (apply lt_IZR; lra).
  lia.
Qed.

Lemma exp_monotone (a b : R) : a <= b -> exp a <= exp b.
Proof.
  intros [Hlt|Heq]; [left; apply exp_increasing; exact Hlt|].
  rewrite Heq. right; reflexivity.
Qed.

(** Between two points of [0, 1] the exponential of rate [c] grows by at
    most its slope at 1 times the distance. *)
Lemma exp_step (c s t : R) :
  0 < c -> 0 <= s <= t -> t <= 1 ->
  0 <= exp (t * c) - exp (s * c) <= exp c * (t * c - s * c).
Proof.
  intros Hc Hs Ht.
  assert (Hsplit : exp (s * c) = exp (t * c) * exp (- (t * c - s * c))).
  { rewrite <- exp_plus. f_equal. ring. }
  pose proof (exp_pos (t * c)) as HA.
  pose proof (exp_pos (- (t * c - s * c))) as HB.
  pose proof (exp_ineq1_le (- (t * c - s * c))) as Hlow.
  assert (Hd : 0 <= t * c - s * c) by nra.
  assert (HB1 : exp (- (t * c - s * c)) <= 1)
    by (rewrite <- exp_0; apply exp_monotone; lra).
  assert (HAE : exp (t * c) <= exp c) by (apply exp_monotone; nra).
  rewrite Hsplit.
  set (A := exp (t * c)) in *. set (B := exp (- (t * c - s * c))) in *.
  set (d := t * c - s * c) in *. set (E := exp c) in *.
  split; nra.
Qed.

Lemma expand_lipschitz (a b : R) :
  - 1 <= a <= 1 -> - 1 <= b <= 1 ->
  Rabs (Spec.expand a - Spec.expand b)
  <= 256 * (Rabs (a - b) * ln 256) / 255.
Proof.
  intros Ha Hb. pose proof ln_256_pos as Hc. pose proof exp_ln_256 as HE.
  assert (Haa : 0 <= Rabs a <= 1)
    by (split; [apply Rabs_pos|apply Rabs_le; lra]).
  assert (Hbb : 0 <= Rabs b <= 1)
    by (split; [apply Rabs_pos|apply Rabs_le; lra]).
  assert (H0 : exp (0 * ln 256) = 1) by (rewrite Rmult_0_l; apply exp_0).
  pose proof (@exp_step (ln 256) 0 (Rabs a) Hc) as Ea.
  pose proof (@exp_step (ln 256) 0 (Rabs b) Hc) as Eb.
  rewrite H0, HE in Ea, Eb.
  specialize (Ea ltac:(lra) ltac:(lra)). specialize (Eb ltac:(lra) ltac:(lra)).
  assert (Eab : Rabs a <= Rabs b ->
                0 <= exp (Rabs b * ln 256) - exp (Rabs a * ln 256)
                <= 256 * (Rabs b * ln 256 - Rabs a * ln 256)).
  { intros Hle.
    pose proof (@exp_step (ln 256) (Rabs a) (Rabs b) Hc) as H.
    rewrite HE in H. apply H; lra. }
  assert (Eba : Rabs b <= Rabs a ->
                0 <= exp (Rabs a * ln 256) - exp (Rabs b * ln 256)
                <= 256 * (Rabs a * ln 256 - Rabs b * ln 256)).
  { intros Hle.
    pose proof (@exp_step (ln 256) (Rabs b) (Rabs a) Hc) as H.
    rewrite HE in H. apply H; lra. }
  unfold Spec.expand.
  set (ea := exp (Rabs a * ln 256)) in *.
  set (eb := exp (Rabs b * ln 256)) in *.
  set (c := ln 256) in *.
  destruct (Rsign_cases a) as [[Sa [-> Ra]]|[[Sa [-> Ra]]|[Sa [-> Ra]]]];
    destruct (Rsign_cases b) as [[Sb [-> Rb]]|[[Sb [-> Rb]]|[Sb [-> Rb]]]];
    rewrite Ra, Rb in *;
    destruct (Rle_dec a b) as [Hab|Hab];
    try (rewrite (Rabs_left1 (a - b)) by lra);
    try (rewrite (Rabs_pos_eq (a - b)) by lra);
    try specialize (Eab ltac:(lra)); try specialize (Eba ltac:(lra));
    apply Rabs_le; split; nra.
Qed.

Lemma ln_2_upper : ln 2 < 73 / 100.
Proof.
  assert (H : 2 < exp (73 / 100)).
  { pose proof (exp_ineq1_le (73 / 800)) as H1.
    assert (H2 : exp (73 / 400) = exp (73 / 800) * exp (73 / 800))
      by (rewrite <- exp_plus; f_equal; lra).
    assert (H4 : exp (73 / 200) = exp (73 / 400) * exp (73 / 400))
      by (rewrite <- exp_plus; f_equal; lra).
    assert (H8 : exp (73 / 100) = exp (73 / 200) * exp (73 / 200))
      by (rewrite <- exp_plus; f_equal; lra).
    set (e1 := exp (73 / 800)) in *. set (e2 := exp (73 / 400)) in *.
    set (e4 := exp (73 / 200)) in *. set (e8 := exp (73 / 100)) in *.
    assert (B2 : 119 / 100 <= e2) by nra.
    assert (B4 : 141 / 100 <= e4) by nra.
    nra. }
  rewrite <- (ln_exp (73 / 100)). apply ln_increasing; lra.
Qed.

Lemma ln_256_upper : ln 256 < 584 / 100.
Proof.
  pose proof ln_2_upper as H.
  replace 256 with (2 ^ 8) by lra.
  rewrite ln_pow by lra. simpl INR. lra.
Qed.

(** Amplitudes from 0.98 up all take the top code. *)
Lemma top_code_power : 256 ^ 254 <= (2509 / 10) ^ 255.
Proof.
  unfold Rdiv. rewrite Rpow_mult_distr, pow_inv.
  apply Rmult_le_reg_r with (10 ^ 255); [apply pow_lt; lra|].
  rewrite Rmult_assoc, Rinv_l, Rmult_1_r by (apply pow_nonzero; lra).
  rewrite !pow_IZR, <- mult_IZR. apply IZR_le, Z.leb_le.
  vm_compute. reflexivity.
Qed.

Lemma mu_law_top_code (x : R) :
  98 / 100 <= x <= 1 -> Torchaudio.mu_law_encoding 256 (Fin x) = 255%Z.
Proof.
  intros Hx. pose proof ln_256_pos as Hc.
  destruct (@mu_law_code x ltac:(lra)) as [Hk Hu].
  set (k := Torchaudio.mu_law_encoding 256 (Fin x)) in *.
  assert (HF : 254 / 255 <= Spec.compand x).
  { unfold Spec.compand.
    destruct (Rsign_cases x) as [[_ [-> ->]]|[[Hn _]|[Hn _]]]; try lra.
    assert (Hpow : 254 * ln 256 <= 255 * ln (2509 / 10)).
    { replace 254 with (INR 254) by (rewrite INR_IZR_INZ; reflexivity).
      replace 255 with (INR 255) by (rewrite INR_IZR_INZ; reflexivity).
      rewrite <- !ln_pow by lra.
      apply ln_monotone; [apply pow_lt; lra|apply top_code_power]. }
    assert (Hln : ln (2509 / 10) <= ln (1 + 255 * x))
      by (apply ln_monotone; lra).
    apply Rmult_le_reg_r with (ln 256); [exact Hc|].
    replace (1 * ln (1 + 255 * x) / ln 256 * ln 256)
      with (ln (1 + 255 * x)) by (field; lra).
    lra. }
  assert (254 < k)%Z by (apply lt_IZR; lra).
  lia.
Qed.

Lemma mu_law_decode_top : Torchaudio.mu_law_decoding 256 255 = Fin 1.
Proof.
  rewrite mu_law_decoding_real. f_equal.
  replace (255 / 255 * 2 - 1) with 1 by lra.
  unfold Spec.expand. rewrite Rabs_R1, Rmult_1_l, exp_ln_256.
  destruct (Rsign_cases 1) as [[_ [-> _]]|[[Hn _]|[Hn _]]]; lra.
Qed.

(** The codes of silence and of the two full-scale amplitudes. *)
Example mu_law_encoding_zero : Torchaudio.mu_law_encoding 256 (Fin 0) = 128%Z.
Proof.
  destruct (@mu_law_code 0 ltac:(lra)) as [_ Hu].
  assert (HF : Spec.compand 0 = 0).
  { unfold Spec.compand.
    destruct (Rsign_cases 0) as [[H _]|[[H _]|[_ [-> _]]]]; lra. }
  rewrite HF in Hu.
  set (k := Torchaudio.mu_law_encoding 256 (Fin 0)) in *.
  assert (127 < k)%Z by (apply lt_IZR; lra).
  assert (k < 129)%Z by (apply lt_IZR; lra).
  lia.
Qed.

Example mu_law_encoding_full_scale :
  Torchaudio.mu_law_encoding 256 (Fin 1) = 255%Z /\
  Torchaudio.mu_law_encoding 256 (Fin (- 1)) = 0%Z.
Proof.
  split; [apply mu_law_top_code; lra|].
  destruct (@mu_law_code (- 1) ltac:(lra)) as [Hk Hu].
  assert (HF : Spec.compand (- 1) = - 1).
  { pose proof ln_256_pos. unfold Spec.compand.
    destruct (Rsign_cases (- 1)) as [[H1 _]|[[_ [-> ->]]|[H1 _]]]; try lra.
    replace (1 + 255 * - - 1) with 256 by lra. field. lra. }
  rewrite HF in Hu.
  set (k := Torchaudio.mu_law_encoding 256 (Fin (- 1))) in *.
  assert (k < 1)%Z by (apply lt_IZR; lra).
  lia.
Qed.

(** C9, as amended: an amplitude in [-1, 1] is encoded to a code in
    [0, 255]; decoding that code gives an amplitude that is less than one
    code step, 2/255, from the input on the companded scale and less than
    3/128 from it in amplitude. *)
Theorem mu_law_roundtrip_bounded (x : R) :
  - 1 <= x <= 1 ->
  (0 <= Torchaudio.mu_law_encoding 256 (Fin x) <= 255)%Z /\
  exists r,
    Torchaudio.mu_law_decoding 256 (Torchaudio.mu_law_encoding 256 (Fin x))
    = Fin r /\
    Rabs (Spec.compand r - Spec.compand x) < 2 / 255 /\
    Rabs (r - x) < 3 / 128.
Proof.
  intros Hx. destruct (mu_law_code Hx) as [Hk Hu].
  set (k := Torchaudio.mu_law_encoding 256 (Fin x)) in *.
  split; [exact Hk|].
  set (y := IZR k / 255 * 2 - 1).
  assert (HIk : 0 <= IZR k <= 255) by (split; apply IZR_le; lia).
  assert (Hy : - 1 <= y <= 1) by (unfold y; lra).
  assert (Hstep : Rabs (y - Spec.compand x) <= 1 / 255)
    by (apply Rabs_le; unfold y; lra).
  exists (Spec.expand y). split; [apply mu_law_decoding_real|].
  split; [rewrite compand_expand; lra|].
  rewrite <- (expand_compand x) at 1.
  pose proof (expand_lipschitz Hy (compand_range Hx)) as Hlip.
  pose proof ln_256_upper as Hc. pose proof ln_256_pos as Hc0.
  pose proof (Rabs_pos (y - Spec.compand x)) as Hpos.
  set (d := Rabs (y - Spec.compand x)) in *. set (c := ln 256) in *.
  assert (d * c <= 1 / 255 * (584 / 100)) by nra.
  lra.
Qed.

Lemma mu_law_roundtrip_bounded_witness :
  - 1 <= 1 / 2 <= 1 /\
  (0 <= Torchaudio.mu_law_encoding 256 (Fin (1 / 2)) <= 255)%Z /\
  exists r,
    Torchaudio.mu_law_decoding 256
      (Torchaudio.mu_law_encoding 256 (Fin (1 / 2))) = Fin r /\
    Rabs (Spec.compand r - Spec.compand (1 / 2)) < 2 / 255 /\
    Rabs (r - 1 / 2) < 3 / 128.
Proof.
  assert (H : - 1 <= 1 / 2 <= 1) by lra.
  split; [exact H|]. exact (@mu_law_roundtrip_bounded (1 / 2) H).
Defined.

(** C9, as stated, fails: every amplitude from 0.98 to 0.99 is decoded to
    1.0, at least 0.01 away, more than the step 2/256; so the bound does not
    hold almost everywhere. *)
Lemma mu_law_roundtrip_step_counterexample :
  ~ Spec.roundtrip_within_step_almost_everywhere.
Proof.
  intros H. destruct (H (98 / 100) (99 / 100)) as [x [r [Hx [Hr Hd]]]];
    try lra.
  rewrite mu_law_top_code, mu_law_decode_top in Hr by lra.
  injection Hr as <-.
  rewrite Rabs_pos_eq in Hd by lra. lra.
Qed.

(** * Further properties of the code *)

(** ** The constructor *)

(** X1: the preprocessor [__init__] builds has [final_sr] equal to the
    output rate when one is given and to the input rate otherwise; its
    resampler is the identity exactly when [final_sr] is the input rate, and
    otherwise converts from the input rate to [final_sr], two different
    rates. *)
Theorem init_rates_agree
    (input_sr : Z) (output_sr : option Z) (melspec_buckets hop n : nat) :
  let self := __init__ input_sr output_sr melspec_buckets hop n in
  final_sr self = match output_sr with Some o => o | None => input_sr end /\
  (resample self = Identity <-> final_sr self = sr self) /\
  (forall a b, resample self = Resample a b ->
               a = sr self /\ b = final_sr self /\ a <> b).
Proof.
  intros self. unfold self, __init__, needs_resampling.
  cbn [final_sr resample sr].
  destruct output_sr as [o|].
  - destruct (Z.eqb_spec o input_sr) as [->|Hne]; cbn [negb].
    + repeat split; try reflexivity; intros; discriminate.
    + split; [reflexivity|]. split.
      * split; [discriminate|]. intros H. contradiction.
      * intros a b H. injection H as <- <-. repeat split. congruence.
  - repeat split; try reflexivity; intros; discriminate.
Qed.

(** ** Mono mixdown inside the pipeline *)

Lemma to_mono_fixed (x y : ndarray fp) : to_mono x = Ok y -> to_mono y = Ok y.
Proof.
  intros Hx. destruct (Nat.eq_dec (ndim x) 2) as [H2|H2].
  - apply to_mono_keeps_other_ranks.
    unfold to_mono in Hx. unfold ndim in H2. rewrite H2 in Hx. simpl in Hx.
    apply librosa_to_mono_rank in Hx.
    + rewrite Hx. discriminate.
    + rewrite transpose_rank. exact H2.
  - rewrite (to_mono_keeps_other_ranks x H2) in Hx. injection Hx as <-.
    apply to_mono_keeps_other_ranks, H2.
Qed.

(** X2: mixing to mono before calling [normalize_audio], as
    [visualize_cleaning] does, changes nothing: the result is that of
    [normalize_audio] on the original array, errors included. *)
Theorem normalize_audio_after_to_mono
    (ext : Collaborators) (self : AudioPreprocessor) (audio : ndarray fp) :
  (mono <- to_mono audio ;; normalize_audio ext self mono)
  = normalize_audio ext self audio.
Proof.
  unfold normalize_audio.
  destruct (to_mono audio) as [mono|e] eqn:Hm; cbn [bind]; [|reflexivity].
  rewrite (to_mono_fixed audio Hm). reflexivity.
Qed.

(** ** Loudness normalization: the edges *)

(** X3: an empty waveform is never normalized: [normalize_loudness] raises,
    from the meter or else from the maximum of an empty array, and so does
    [normalize_audio] on an empty mono waveform. *)
Theorem normalize_loudness_of_empty_raises
    (ext : Collaborators) (self : AudioPreprocessor) (sh : list nat)
    (n : nat) :
  raises (normalize_loudness ext self {| shape := sh; data := [] |}) /\
  raises (normalize_audio ext self {| shape := [n]; data := [] |}).
Proof.
  assert (H : forall sh', raises (normalize_loudness ext self
                                    {| shape := sh'; data := [] |})).
  { intros sh'. unfold normalize_loudness. apply bind_raises.
    intros loudness. exists ValueError. reflexivity. }
  split; [apply H|].
  unfold normalize_audio.
  replace (to_mono {| shape := [n]; data := [] |})
    with (Ok {| shape := [n]; data := @nil fp |}) by reflexivity.
  cbn [bind]. destruct (H [n]) as [e ->]. exists e. reflexivity.
Qed.

(** ** The demonstration plot *)

(** X4: built with [output_sr] unset, [visualize_cleaning] raises for every
    input: the cleaned spectrogram cannot be computed, so the branch that
    would draw it at the input rate never draws. *)
Theorem visualize_cleaning_without_output_rate_raises
    (ext : Collaborators) (input_sr : Z) (melspec_buckets hop n : nat)
    (unclean_audio : ndarray fp) :
  raises (Plotting.visualize_cleaning ext
            (__init__ input_sr None melspec_buckets hop n) unclean_audio).
Proof.
  unfold Plotting.visualize_cleaning.
  apply bind_raises. intros mono. apply bind_raises. intros unclean_spec.
  set (self := __init__ input_sr None melspec_buckets hop n).
  assert (H : raises (audio_to_mel_spec_tensor ext self mono true)).
  { unfold audio_to_mel_spec_tensor. apply bind_raises. intros a.
    unfold mel_spec_new_sr, logmelfilterbank. apply bind_raises. intros m.
    exists TypeError. reflexivity. }
  destruct H as [e ->]. exists e. reflexivity.
Qed.

(** ** Loudness normalization of finite samples *)

Lemma gain_of_finite_loudness (l : R) :
  exists g, 0 < g /\
    np_power10 (fdiv (fsub (Fin (- 30)) (Fin l)) (Fin 20)) = Fin g.
Proof.
  unfold fsub. cbn [fneg fadd]. rewrite fdiv_Fin by lra.
  unfold np_power10. cbn [fmul fexp].
  eexists. split; [apply exp_pos|reflexivity].
Qed.

Lemma fold_np_maximum_Fin (ys : list R) (a : R) :
  fold_left np_maximum (map Fin ys) (Fin a) = Fin (fold_left Rmax ys a).
Proof.
  revert a; induction ys as [|y ys IH]; intros a; [reflexivity|].
  cbn [map fold_left np_maximum]. apply IH.
Qed.

Lemma amax_abs_Fin (sh : list nat) (ys : list R) :
  amax (np_abs {| shape := sh; data := map Fin ys |})
  = match ys with
    | [] => Raise ValueError
    | _ :: _ => Ok (Fin (peak_abs ys))
    end.
Proof.
  unfold amax, np_abs, amap, peak_abs. cbn [data].
  destruct ys as [|y ys]; [reflexivity|].
  cbn [map fabs]. rewrite map_map.
  replace (map (fun x => fabs (Fin x)) ys) with (map Fin (map Rabs ys))
    by (rewrite map_map; reflexivity).
  rewrite fold_np_maximum_Fin. reflexivity.
Qed.

Lemma fold_Rmax_scale (g : R) (ys : list R) (a : R) :
  0 <= g ->
  fold_left Rmax (map (Rmult g) ys) (g * a) = g * fold_left Rmax ys a.
Proof.
  intros Hg. revert a; induction ys as [|y ys IH]; intros a; [reflexivity|].
  cbn [map fold_left]. rewrite RmaxRmult by exact Hg. apply IH.
Qed.

Lemma peak_abs_scale (g : R) (xs : list R) :
  0 <= g -> peak_abs (map (Rmult g) xs) = g * peak_abs xs.
Proof.
  intros Hg. unfold peak_abs. destruct xs as [|x xs]; [cbn; ring|].
  cbn [map]. rewrite Rabs_mult, (Rabs_pos_eq g) by exact Hg.
  rewrite map_map.
  replace (map (fun y => Rabs (g * y)) xs) with (map (Rmult g) (map Rabs xs)).
  - apply fold_Rmax_scale, Hg.
  - rewrite map_map. apply map_ext. intros y.
    rewrite Rabs_mult, (Rabs_pos_eq g) by exact Hg. reflexivity.
Qed.

Lemma fold_Rmax_bounds (ys : list R) (a : R) :
  a <= fold_left Rmax ys a /\
  Forall (fun y => y <= fold_left Rmax ys a) ys /\
  (fold_left Rmax ys a = a \/ In (fold_left Rmax ys a) ys).
Proof.
  revert a; induction ys as [|y ys IH]; intros a; cbn [fold_left].
  - split; [lra|]. split; [constructor|left; reflexivity].
  - destruct (IH (Rmax a y)) as [H1 [H2 H3]].
    pose proof (Rmax_l a y). pose proof (Rmax_r a y).
    split; [lra|]. split; [constructor; [lra|exact H2]|].
    destruct H3 as [H3|H3]; [|right; right; exact H3].
    rewrite H3. unfold Rmax. destruct (Rle_dec a y); [right; left|left];
      reflexivity.
Qed.

Lemma peak_abs_bounds (xs : list R) :
  Forall (fun x => Rabs x <= peak_abs xs) xs /\
  (xs <> [] -> exists x, In x xs /\ Rabs x = peak_abs xs).
Proof.
  unfold peak_abs. destruct xs as [|x xs]; [split; [constructor|congruence]|].
  cbn [map]. destruct (fold_Rmax_bounds (map Rabs xs) (Rabs x)) as [H1 [H2 H3]].
  split.
  - constructor; [exact H1|].
    rewrite Forall_map in H2. exact H2.
  - intros _. destruct H3 as [H3|H3].
    + exists x. split; [left; reflexivity|symmetry; exact H3].
    + apply in_map_iff in H3. destruct H3 as [z [Hz Hin]].
      exists z. split; [right; exact Hin|exact Hz].
Qed.

Lemma peak_abs_nonneg (xs : list R) : 0 <= peak_abs xs.
Proof.
  destruct xs as [|x xs]; [unfold peak_abs; cbn; lra|].
  destruct (peak_abs_bounds (x :: xs)) as [H _].
  inversion H; subst. pose proof (Rabs_pos x). lra.
Qed.

(** With a finite loudness and a non-zero peak the gain cancels in exact
    arithmetic: what is returned is the input over its own peak. *)
Lemma normalize_loudness_finite
    (ext : Collaborators) (self : AudioPreprocessor) (sh : list nat)
    (xs : list R) (l : R) :
  integrated_loudness ext (meter self) {| shape := sh; data := map Fin xs |}
  = Ok (Fin l) ->
  peak_abs xs <> 0 ->
  normalize_loudness ext self {| shape := sh; data := map Fin xs |}
  = Ok {| shape := sh; data := map (fun x => Fin (x / peak_abs xs)) xs |}.
Proof.
  intros Hmeter Hpeak. unfold normalize_loudness. rewrite Hmeter. cbn [bind].
  destruct (gain_of_finite_loudness l) as [g [Hg Hgain]].
  unfold Pyloudnorm.normalize_loudness. rewrite Hgain.
  unfold amap at 1. cbn [shape data]. rewrite map_map.
  replace (map (fun x => fmul (Fin g) (Fin x)) xs)
    with (map Fin (map (Rmult g) xs)) by (rewrite map_map; reflexivity).
  rewrite amax_abs_Fin.
  destruct xs as [|x xs]; [contradiction Hpeak; reflexivity|].
  cbn [map bind]. rewrite <- (map_cons (Rmult g) x xs).
  rewrite peak_abs_scale by lra.
  set (M := peak_abs (x :: xs)) in *.
  unfold divide, amap. cbn [shape data]. f_equal. f_equal.
  change (Fin x :: map Fin xs) with (map Fin (x :: xs)).
  change (Fin (x / M) :: map (fun y => Fin (y / M)) xs)
    with (map (fun y => Fin (y / M)) (x :: xs)).
  rewrite !map_map. apply map_ext. intros y. cbn [fmul].
  rewrite fdiv_Fin by nra. f_equal. field. lra.
Qed.

Lemma peak_abs_of_nonzero (xs : list R) :
  Exists (fun x => x <> 0) xs -> 0 < peak_abs xs.
Proof.
  intros H. apply Exists_exists in H. destruct H as [x [Hin Hx]].
  destruct (peak_abs_bounds xs) as [Hall _].
  rewrite Forall_forall in Hall. specialize (Hall x Hin).
  pose proof (Rabs_pos_lt x Hx). lra.
Qed.

Lemma Rabs_le_between (r b : R) : Rabs r <= b -> - b <= r <= b.
Proof. unfold Rabs. destruct (Rcase_abs r); lra. Qed.

(** X6: for finite samples that are not all zero and a finite loudness
    reading, [normalize_loudness] keeps the shape and the number of samples,
    every sample it returns lies in [-1, 1], and one of them is 1 or -1. *)
Theorem normalize_loudness_peak_is_one
    (ext : Collaborators) (self : AudioPreprocessor) (sh : list nat)
    (xs : list R) (l : R) :
  integrated_loudness ext (meter self) {| shape := sh; data := map Fin xs |}
  = Ok (Fin l) ->
  Exists (fun x => x <> 0) xs ->
  exists out,
    normalize_loudness ext self {| shape := sh; data := map Fin xs |}
    = Ok out /\
    shape out = sh /\ length (data out) = length xs /\
    Forall (fun v => exists r, v = Fin r /\ - 1 <= r <= 1) (data out) /\
    Exists (fun v => exists r, v = Fin r /\ Rabs r = 1) (data out).
Proof.
  intros Hmeter Hnz. pose proof (peak_abs_of_nonzero Hnz) as Hpos.
  assert (Hpeak : peak_abs xs <> 0) by lra.
  eexists. split;
    [apply (normalize_loudness_finite ext self sh xs Hmeter Hpeak)|].
  cbn [shape data]. split; [reflexivity|]. split; [apply length_map|].
  destruct (peak_abs_bounds xs) as [Hall Hmax]. split.
  - apply Forall_map. eapply Forall_impl; [|exact Hall].
    intros x Hx. cbv beta in Hx. eexists. split; [reflexivity|].
    apply Rabs_le_between. unfold Rdiv. rewrite Rabs_mult, Rabs_inv.
    rewrite (Rabs_pos_eq (peak_abs xs)) by lra.
    apply Rmult_le_reg_r with (peak_abs xs); [exact Hpos|].
    rewrite Rmult_assoc, Rinv_l by exact Hpeak. lra.
  - destruct Hmax as [x [Hin Hx]].
    { intros ->. inversion Hnz. }
    apply Exists_exists. exists (Fin (x / peak_abs xs)). split.
    + apply in_map_iff. exists x. split; [reflexivity|exact Hin].
    + eexists. split; [reflexivity|].
      unfold Rdiv. rewrite Rabs_mult, Rabs_inv, Hx.
      rewrite (Rabs_pos_eq (peak_abs xs)) by lra.
      apply Rinv_r, Hpeak.
Qed.

Lemma normalize_loudness_peak_is_one_witness :
  exists out,
    normalize_loudness (metered (Fin (- 23)))
      (__init__ 16000 None 80 256 1024)
      {| shape := [2]%nat; data := map Fin [1 / 2; - (1 / 4)] |} = Ok out /\
    shape out = [2]%nat /\ length (data out) = 2%nat /\
    Forall (fun v => exists r, v = Fin r /\ - 1 <= r <= 1) (data out) /\
    Exists (fun v => exists r, v = Fin r /\ Rabs r = 1) (data out).
Proof.
  apply (@normalize_loudness_peak_is_one (metered (Fin (- 23)))
           (__init__ 16000 None 80 256 1024) [2]%nat [1 / 2; - (1 / 4)]
           (- 23)).
  - reflexivity.
  - apply Exists_cons_hd. lra.
Defined.

(** ** Loudness normalization with a reading that is not finite *)

Lemma fold_np_maximum_undefined (vs : list fp) (acc : fp) :
  undefined_peak acc -> Forall undefined_peak vs ->
  undefined_peak (fold_left np_maximum vs acc).
Proof.
  revert acc; induction vs as [|v vs IH]; intros acc Hacc Hvs; [exact Hacc|].
  inversion Hvs as [|? ? Hv Hrest]; subst. cbn [fold_left].
  apply IH; [|exact Hrest].
  destruct Hacc as [-> | ->], Hv as [-> | ->]; cbv; auto.
Qed.

Lemma nonfinite_over_peak (vs : list fp) (sh : list nat) :
  vs <> [] -> Forall (fun v => isfinite v = false) vs ->
  (peak <- amax (np_abs {| shape := sh; data := vs |}) ;;
   Ok (divide {| shape := sh; data := vs |} peak))
  = Ok {| shape := sh; data := map (fun _ => NaN) vs |}.
Proof.
  intros Hne Hvs. unfold amax, np_abs, amap. cbn [data shape].
  destruct vs as [|v vs]; [congruence|]. cbn [map bind].
  assert (Habs : forall w, isfinite w = false -> undefined_peak (fabs w))
    by (intros [| | |r]; cbv; auto; discriminate).
  assert (Hpeak : undefined_peak
                    (fold_left np_maximum (map fabs vs) (fabs v))).
  { inversion Hvs; subst. apply fold_np_maximum_undefined; [auto|].
    apply Forall_map. eapply Forall_impl; [|eassumption]. exact Habs. }
  unfold divide, amap. cbn [shape data]. do 2 f_equal.
  change (fdiv v (fold_left np_maximum (map fabs vs) (fabs v))
            :: map (fun w => fdiv w
                       (fold_left np_maximum (map fabs vs) (fabs v))) vs)
    with (map (fun w => fdiv w (fold_left np_maximum (map fabs vs) (fabs v)))
              (v :: vs)).
  change (NaN :: map (fun _ : fp => NaN) vs)
    with (map (fun _ : fp => NaN) (v :: vs)).
  apply map_ext_in. intros w Hw.
  rewrite Forall_forall in Hvs. specialize (Hvs w Hw).
  destruct Hpeak as [-> | ->]; destruct w; try discriminate; reflexivity.
Qed.

Lemma gain_of_nonfinite_loudness (loudness : fp) :
  isfinite loudness = false ->
  let gain := np_power10 (fdiv (fsub (Fin (- 30)) loudness) (Fin 20)) in
  gain = NaN \/ gain = PInf \/ gain = Fin 0.
Proof.
  pose proof ln_10_pos as H10.
  destruct loudness as [| | |l]; try discriminate; intros _; cbv zeta.
  - left. reflexivity.
  - right; left. unfold fsub. cbn [fneg fadd fdiv].
    destruct (Rlt_dec 20 0); [lra|].
    unfold np_power10. cbn [fmul]. unfold inf_times.
    destruct (Rlt_dec 0 (ln 10)); [reflexivity|lra].
  - right; right. unfold fsub. cbn [fneg fadd fdiv].
    destruct (Rlt_dec 20 0); [lra|].
    unfold np_power10. cbn [fmul]. unfold inf_times.
    destruct (Rlt_dec 0 (ln 10)); [reflexivity|lra].
Qed.

(** X8: when the meter's reading is not finite (minus infinity is what a
    signal below its gate gives), every sample [normalize_loudness] returns
    for finite input is NaN, also for input that is not silent. *)
Theorem normalize_loudness_of_nonfinite_reading_is_nan
    (ext : Collaborators) (self : AudioPreprocessor) (sh : list nat)
    (x : R) (xs : list R) (loudness : fp) :
  let audio := {| shape := sh; data := map Fin (x :: xs) |} in
  integrated_loudness ext (meter self) audio = Ok loudness ->
  isfinite loudness = false ->
  normalize_loudness ext self audio
  = Ok {| shape := sh; data := map (fun _ => NaN) (x :: xs) |}.
Proof.
  intros audio Hmeter Hinf. unfold normalize_loudness. rewrite Hmeter.
  cbn [bind]. unfold Pyloudnorm.normalize_loudness.
  destruct (gain_of_nonfinite_loudness loudness Hinf) as [-> | [-> | ->]];
    unfold audio, amap at 1 2; cbn [shape data]; rewrite map_map.
  - rewrite nonfinite_over_peak.
    + rewrite map_map. reflexivity.
    + discriminate.
    + apply Forall_map, Forall_forall. reflexivity.
  - rewrite nonfinite_over_peak.
    + rewrite map_map. reflexivity.
    + discriminate.
    + apply Forall_map, Forall_forall. intros y _. cbn [fmul].
      unfold inf_times. destruct (Rlt_dec 0 y); [reflexivity|].
      destruct (Rlt_dec y 0); reflexivity.
  - replace (map (fun y => fmul (Fin 0) (Fin y)) (x :: xs))
      with (repeat (Fin 0) (S (length xs))).
    + unfold np_abs, amap. cbn [shape data]. rewrite map_repeat.
      change (fabs (Fin 0)) with (Fin (Rabs 0)). rewrite Rabs_R0.
      rewrite amax_of_constant
        by (simpl; rewrite Rmax_left by lra; reflexivity).
      cbn [bind]. unfold divide, amap. cbn [shape data].
      rewrite map_repeat, zero_over_zero. do 2 f_equal.
      change (S (length xs)) with (length (x :: xs)).
      generalize (x :: xs). intros l. induction l as [|a l IH];
        [reflexivity|]. cbn [length repeat map]. f_equal. exact IH.
    + change (S (length xs)) with (length (x :: xs)).
      generalize (x :: xs). intros l. induction l as [|a l IH];
        [reflexivity|]. cbn [length repeat map fmul]. rewrite Rmult_0_l.
      f_equal. exact IH.
Qed.

Lemma normalize_loudness_of_nonfinite_reading_is_nan_witness :
  normalize_loudness (metered NInf) (__init__ 16000 None 80 256 1024)
    {| shape := [2]%nat; data := map Fin [1 / 2; - (1 / 4)] |}
  = Ok {| shape := [2]%nat; data := map (fun _ => NaN) [1 / 2; - (1 / 4)] |}.
Proof.
  apply (@normalize_loudness_of_nonfinite_reading_is_nan (metered NInf)
           (__init__ 16000 None 80 256 1024) [2]%nat (1 / 2) [- (1 / 4)]
           NInf).
  - reflexivity.
  - reflexivity.
Defined.

(** ** Mono mixdown of a multi-channel waveform *)

Lemma In_transpose (d : fp) (r c : nat) (vs : list fp) (v : fp) :
  length vs = (r * c)%nat -> In v vs ->
  In v (data (transpose d {| shape := [r; c]; data := vs |})).
Proof.
  intros Hlen Hin. destruct (In_nth vs v d Hin) as [p [Hp Hv]].
  assert (Hc : (0 < c)%nat) by nia.
  unfold transpose. cbn [shape tabulate2 data].
  apply in_flat_map. exists (p mod c)%nat. split.
  - apply in_seq. pose proof (Nat.mod_upper_bound p c). lia.
  - apply in_map_iff. exists (p / c)%nat. split.
    + unfold get2, ncols. cbn [shape data nth].
      rewrite <- Hv. f_equal.
      pose proof (Nat.div_mod_eq p c). lia.
    + apply in_seq. split; [lia|]. cbn.
      apply Nat.Div0.div_lt_upper_bound. lia.
Qed.

(** Transposing keeps the samples, so it keeps their finiteness. *)
Lemma all_finite_transpose (r c : nat) (vs : list fp) :
  length vs = (r * c)%nat ->
  all_finite (transpose NaN {| shape := [r; c]; data := vs |})
  = forallb isfinite vs.
Proof.
  intros Hlen. unfold all_finite. apply eq_true_iff_eq.
  rewrite !forallb_forall. split.
  - intros H v Hv. apply H, In_transpose; assumption.
  - intros H. apply Forall_forall.
    apply Forall_transpose with (P := fun v => isfinite v = true).
    + unfold well_formed. cbn [shape data size_of fold_right]. lia.
    + apply Forall_forall. exact H.
Qed.

(** The mixdown of the code on a frames x channels waveform: librosa is
    handed the transposed array, checks it and averages over its first
    axis, which gives the mean of the channels frame by frame. *)
Lemma to_mono_two_axes (frames channels : nat) (vs : list fp) :
  length vs = (frames * channels)%nat ->
  to_mono {| shape := [frames; channels]; data := vs |}
  = if (2 <=? channels)%nat && forallb isfinite vs
    then Ok (Spec.mixed_down frames channels vs)
    else Raise ParameterError.
Proof.
  intros Hlen.
  set (audio := {| shape := [frames; channels]; data := vs |}).
  unfold to_mono. cbn [audio shape length Nat.eqb].
  unfold Librosa.to_mono, Librosa.valid_audio.
  unfold audio. rewrite (all_finite_transpose frames channels vs Hlen).
  fold audio. unfold transpose. cbn [audio shape].
  set (y := tabulate2 channels frames (fun j i => get2 NaN audio i j)).
  cbn [y tabulate2 shape negb andb].
  destruct (2 <=? channels)%nat; [|reflexivity].
  destruct (forallb isfinite vs); [|reflexivity].
  unfold ndim, mean_axis0, ncols, nrows.
  cbn [andb bind Nat.ltb Nat.leb].
  change (shape y) with [channels; frames]. cbn [length nth].
  unfold Spec.mixed_down. do 2 f_equal.
  apply map_ext_in. intros i Hi. apply in_seq in Hi.
  unfold Spec.frame_mean. do 2 f_equal.
  apply map_ext_in. intros c Hc. apply in_seq in Hc.
  unfold y. rewrite get2_tabulate2 by lia. reflexivity.
Qed.

(** X9: a frames x channels waveform with at least two channels and
    samples in [-1, 1] is mixed down to one sample per frame, numpy's mean
    over the channels of that frame (their sum, divided by their number):
    the transposition in [to_mono] matches the frames x channels layout. *)
Theorem to_mono_averages_channels (frames channels : nat) (xs : list R) :
  length xs = (frames * channels)%nat -> (2 <= channels)%nat ->
  Forall (fun x => - 1 <= x <= 1) xs ->
  to_mono {| shape := [frames; channels]; data := map Fin xs |}
  = Ok {| shape := [frames];
          data :=
            map (fun i =>
                   fdiv (fsum (map (fun c =>
                                      nth (i * channels + c) (map Fin xs) NaN)
                                   (seq 0 channels)))
                        (Fin (INR channels)))
                (seq 0 frames) |}.
Proof.
  intros Hlen Hch _.
  rewrite (to_mono_two_axes frames channels (map Fin xs))
    by (rewrite length_map; exact Hlen).
  assert (Hfin : forallb isfinite (map Fin xs) = true).
  { apply forallb_forall. intros v Hv. apply in_map_iff in Hv.
    destruct Hv as [x [<- _]]. reflexivity. }
  rewrite Hfin. destruct (Nat.leb_spec 2 channels); [reflexivity|lia].
Qed.

Lemma to_mono_averages_channels_witness :
  to_mono {| shape := [1; 2]%nat; data := map Fin [1 / 2; - (1 / 4)] |}
  = Ok {| shape := [1]%nat;
          data :=
            map (fun i =>
                   fdiv (fsum (map (fun c =>
                                      nth (i * 2 + c)
                                        (map Fin [1 / 2; - (1 / 4)]) NaN)
                                   (seq 0 2)))
                        (Fin (INR 2)))
                (seq 0 1) |}.
Proof.
  apply (@to_mono_averages_channels 1 2 [1 / 2; - (1 / 4)]).
  - reflexivity.
  - apply Nat.leb_le. reflexivity.
  - repeat constructor; lra.
Defined.

(** ** The four steps of [normalize_audio] *)

Lemma to_mono_is_mix_to_mono (audio : ndarray fp) :
  well_formed audio -> to_mono audio = Spec.mix_to_mono audio.
Proof.
  destruct audio as [sh vs]. unfold well_formed. cbn [shape data].
  intros Hwf. unfold Spec.mix_to_mono, Spec.accepted, Spec.mix_if_multichannel.
  cbn [shape data].
  destruct sh as [|frames [|channels [|x rest]]]; try reflexivity.
  rewrite to_mono_two_axes
    by (cbn [size_of fold_right] in Hwf; lia).
  destruct (2 <=? channels)%nat; reflexivity.
Qed.

(** numpy's power of ten of a twentieth of the difference in decibels is
    the gain of the specification. *)
Lemma power10_is_gain_to_target (measured : fp) :
  np_power10 (fdiv (fsub (Fin (- 30)) measured) (Fin 20))
  = Spec.gain_to_target measured.
Proof.
  pose proof ln_10_pos as H10.
  destruct measured as [| | |l]; unfold fsub; cbn [fneg fadd fdiv].
  - reflexivity.
  - destruct (Rlt_dec 20 0); [lra|].
    unfold np_power10. cbn [fmul]. unfold inf_times.
    destruct (Rlt_dec 0 (ln 10)); [reflexivity|lra].
  - destruct (Rlt_dec 20 0); [lra|].
    unfold np_power10. cbn [fmul]. unfold inf_times.
    destruct (Rlt_dec 0 (ln 10)); [reflexivity|lra].
  - destruct (Req_dec_T 20 0); [lra|].
    unfold np_power10. cbn [fmul fexp Spec.gain_to_target].
    unfold Rpower, Spec.target_lufs. reflexivity.
Qed.

Lemma fold_left_over_map {A B C : Type} (f : A -> B -> A) (g : C -> B)
    (l : list C) (a : A) :
  fold_left f (map g l) a = fold_left (fun m x => f m (g x)) l a.
Proof.
  revert a; induction l as [|x l IH]; intros a; [reflexivity|].
  cbn [map fold_left]. apply IH.
Qed.

Lemma amax_abs_is_peak (a : ndarray fp) :
  amax (np_abs a) = Spec.peak (data a).
Proof.
  unfold amax, np_abs, amap, Spec.peak. cbn [data].
  destruct (data a) as [|v rest]; [reflexivity|].
  cbn [map]. rewrite fold_left_over_map. reflexivity.
Qed.

Lemma normalize_loudness_is_step_two
    (ext : Collaborators) (self : AudioPreprocessor) (audio : ndarray fp) :
  normalize_loudness ext self audio
  = (measured <- integrated_loudness ext (meter self) audio ;;
     Spec.divide_by_peak (Spec.rescale_to_target measured audio)).
Proof.
  unfold normalize_loudness.
  destruct (integrated_loudness ext (meter self) audio) as [measured|e];
    [|reflexivity].
  cbn [bind]. unfold Pyloudnorm.normalize_loudness.
  rewrite power10_is_gain_to_target, amax_abs_is_peak.
  unfold Spec.divide_by_peak, Spec.rescale_to_target, divide.
  destruct (Spec.peak _); reflexivity.
Qed.

(** C1, as amended: on a well-formed array [normalize_audio] is, in this
    order, (1) the mixdown of a waveform with two or more channels to the
    mean of its channels (their sum, divided by their number), frame by
    frame; an array with two axes and fewer than two channels, or with a
    sample that is not finite, is refused with ParameterError, and an array
    with another number of axes is kept; (2) the gain
    10^((-30 - loudness) / 20) followed by the division by the peak
    absolute amplitude, and the conversion to a float32 tensor; (3) the
    voice-activity trimming; (4) the resampling to the configured output
    rate (the identity when that rate is unset or equals the input rate);
    and nothing else. *)
Theorem normalize_audio_is_the_four_steps
    (ext : Collaborators) (input_sr : Z) (output_sr : option Z)
    (melspec_buckets hop n : nat) (audio : ndarray fp) :
  well_formed audio ->
  normalize_audio ext (__init__ input_sr output_sr melspec_buckets hop n)
    audio
  = Spec.normalize_audio ext input_sr output_sr audio.
Proof.
  intros Hwf. unfold normalize_audio, Spec.normalize_audio.
  rewrite (to_mono_is_mix_to_mono Hwf).
  destruct (Spec.mix_to_mono audio) as [mono|e]; cbn [bind]; [|reflexivity].
  rewrite normalize_loudness_is_step_two. cbn [meter __init__].
  destruct (integrated_loudness ext (Pyloudnorm.mk_Meter input_sr) mono)
    as [measured|e]; cbn [bind]; [|reflexivity].
  destruct (Spec.divide_by_peak _) as [levelled|e]; cbn [bind];
    [|reflexivity].
  unfold cut_silence_from_beginning, torch_Tensor. cbn [vad __init__].
  destruct (vad_forward ext _ _) as [trimmed|e]; cbn [bind]; [|reflexivity].
  rewrite bind_ret. apply resample_is_to_output_rate.
Qed.

Lemma normalize_audio_is_the_four_steps_witness :
  let audio :=
    {| shape := [2; 2]%nat; data := [Fin 1; Fin 3; Fin 5; Fin 7] |} in
  well_formed audio /\
  normalize_audio (metered (Fin (- 23)))
    (__init__ 16000 (Some 8000%Z) 80 256 1024) audio
  = Spec.normalize_audio (metered (Fin (- 23))) 16000 (Some 8000%Z) audio.
Proof.
  cbv zeta. split; [reflexivity|].
  apply (@normalize_audio_is_the_four_steps (metered (Fin (- 23))) 16000
           (Some 8000%Z) 80 256 1024).
  reflexivity.
Defined.

(** C1, as stated, fails: it does not hold for every input waveform.  A
    waveform of three frames of a single channel, stored with two axes, is
    not multi-channel, so the four steps leave it unmixed and return a
    result; [normalize_audio] raises ParameterError on it. *)
Lemma normalize_audio_single_channel_counterexample :
  let ext := metered (Fin (- 23)) in
  let self := __init__ 16000 None 80 256 1024 in
  let audio :=
    {| shape := [3; 1]%nat;
       data := [Fin (1 / 2); Fin (- (1 / 4)); Fin (1 / 8)] |} in
  normalize_audio ext self audio = Raise ParameterError /\
  (exists out, Spec.four_steps ext 16000 None audio = Ok out) /\
  normalize_audio ext self audio <> Spec.four_steps ext 16000 None audio.
Proof.
  cbv zeta.
  assert (H1 : normalize_audio (metered (Fin (- 23)))
                 (__init__ 16000 None 80 256 1024)
                 {| shape := [3; 1]%nat;
                    data := [Fin (1 / 2); Fin (- (1 / 4)); Fin (1 / 8)] |}
               = Raise ParameterError) by reflexivity.
  assert (H2 : exists out,
             Spec.four_steps (metered (Fin (- 23))) 16000 None
               {| shape := [3; 1]%nat;
                  data := [Fin (1 / 2); Fin (- (1 / 4)); Fin (1 / 8)] |}
             = Ok out) by (eexists; reflexivity).
  split; [exact H1|]. split; [exact H2|].
  destruct H2 as [out H2]. rewrite H1, H2. discriminate.
Qed.

(** ** The log-mel filterbank, entry by entry *)

Lemma flat_map_agree {A B : Type} (f g : A -> list B) (l : list A) :
  (forall a, In a l -> f a = g a) -> flat_map f l = flat_map g l.
Proof.
  induction l as [|a l IH]; intros H; [reflexivity|].
  cbn [flat_map]. rewrite (H a) by (left; reflexivity).
  rewrite IH; [reflexivity|]. intros b Hb. apply H. right; exact Hb.
Qed.

Lemma tabulate2_ext {T : Type} (r c : nat) (f g : nat -> nat -> T) :
  (forall i j, (i < r)%nat -> (j < c)%nat -> f i j = g i j) ->
  tabulate2 r c f = tabulate2 r c g.
Proof.
  intros H. unfold tabulate2. f_equal.
  apply flat_map_agree. intros i Hi. apply in_seq in Hi.
  apply map_ext_in. intros j Hj. apply in_seq in Hj. apply H; lia.
Qed.

Lemma amap_tabulate2 {T U : Type} (g : T -> U) (r c : nat)
    (f : nat -> nat -> T) :
  amap g (tabulate2 r c f) = tabulate2 r c (fun i j => g (f i j)).
Proof.
  unfold amap, tabulate2. cbn [shape data]. f_equal.
  induction (seq 0 r) as [|i l IH]; [reflexivity|].
  cbn [flat_map]. rewrite map_app, IH, map_map. reflexivity.
Qed.

Lemma transpose_tabulate2 {T : Type} (d : T) (r c : nat)
    (f : nat -> nat -> T) :
  transpose d (tabulate2 r c f) = tabulate2 c r (fun j i => f i j).
Proof.
  unfold transpose. cbn [tabulate2 shape].
  apply tabulate2_ext. intros j i Hj Hi.
  apply (get2_tabulate2 d f); assumption.
Qed.

Lemma dot_tabulate2 (r k c : nat) (f g : nat -> nat -> fp) :
  dot (tabulate2 r k f) (tabulate2 k c g)
  = Ok (tabulate2 r c
          (fun i j => fsum (map (fun x => fmul (f i x) (g x j)) (seq 0 k)))).
Proof.
  unfold dot, nrows, ncols. cbn [tabulate2 shape nth].
  rewrite Nat.eqb_refl. f_equal. apply tabulate2_ext. intros i j Hi Hj.
  f_equal. apply map_ext_in. intros x Hx. apply in_seq in Hx.
  fold (tabulate2 r k f). fold (tabulate2 k c g).
  rewrite !get2_tabulate2 by lia. reflexivity.
Qed.

Lemma stft_of_mono (n : nat) (samples : list fp) (N hop : nat) :
  forallb isfinite samples = true -> samples <> [] ->
  (1 <= N)%nat -> (1 <= hop)%nat ->
  exists padded,
    Librosa.np_pad_reflect samples (N / 2) = Ok padded /\
    length padded = (length samples + 2 * (N / 2))%nat /\
    Forall finite padded /\ (N <= length padded)%nat /\
    Librosa.stft {| shape := [n]; data := samples |} N hop
    = Ok (tabulate2 (1 + N / 2) (Librosa.frame_count (length padded) N hop)
            (fun k t => Librosa.rfft_bin padded N hop t k)).
Proof.
  intros Hfin Hne HN Hhop.
  assert (HL : (1 <= length samples)%nat)
    by (destruct samples; [congruence|simpl; lia]).
  destruct (np_pad_reflect_ok samples (N / 2) HL) as [padded Hp].
  destruct (np_pad_reflect_inv _ _ Hp) as [Hlen Hpf].
  assert (HNp : (N <= length padded)%nat).
  { rewrite Hlen. pose proof (Nat.div_mod_eq N 2).
    pose proof (Nat.mod_upper_bound N 2). lia. }
  exists padded. split; [exact Hp|]. split; [exact Hlen|].
  split; [apply Hpf; [|exact HL]|].
  { apply Forall_forall. rewrite forallb_forall in Hfin. exact Hfin. }
  split; [exact HNp|].
  unfold Librosa.stft, Librosa.valid_audio, all_finite. cbn [shape data].
  rewrite Hfin. cbn [andb bind]. rewrite Hp. cbn [bind].
  destruct (Nat.ltb_spec (length padded) N); [lia|].
  destruct (Nat.ltb_spec hop 1); [lia|].
  destruct (Nat.eqb_spec N 0); [lia|]. reflexivity.
Qed.

(** The value of the filterbank on a valid mono waveform, in closed form. *)
Lemma logmelfilterbank_formula
    (ext : Collaborators) (self : AudioPreprocessor) (n : nat)
    (samples : list fp) (rate : Z) (fmin fmax : option R) (eps : R) :
  forallb isfinite samples = true -> samples <> [] ->
  (1 <= n_fft self)%nat -> (1 <= hop_length self)%nat ->
  exists padded,
    Librosa.np_pad_reflect samples (n_fft self / 2) = Ok padded /\
    length padded = (length samples + 2 * (n_fft self / 2))%nat /\
    Forall finite padded /\ (n_fft self <= length padded)%nat /\
    logmelfilterbank ext self {| shape := [n]; data := samples |}
      (Some rate) fmin fmax eps
    = Ok (tabulate2 (mel_buckets self)
            (Librosa.frame_count (length padded) (n_fft self)
               (hop_length self))
            (fun m t =>
               to_float32
                 (np_log10
                    (np_maximum (Fin eps)
                       (fsum
                          (map (fun k =>
                                  fmul
                                    (hypot
                                       (fst (Librosa.rfft_bin padded
                                               (n_fft self) (hop_length self)
                                               t k))
                                       (snd (Librosa.rfft_bin padded
                                               (n_fft self) (hop_length self)
                                               t k)))
                                    (Fin (mel_weights ext rate (n_fft self)
                                            (mel_buckets self)
                                            match fmin with
                                            | Some f => f
                                            | None => 0
                                            end
                                            match fmax with
                                            | Some f => f
                                            | None => IZR rate / 2
                                            end m k)))
                               (seq 0 (1 + n_fft self / 2)))))))).
Proof.
  intros Hfin Hne HN Hhop.
  destruct (@stft_of_mono n samples _ _ Hfin Hne HN Hhop)
    as [padded [Hp [Hlen [Hpf [HNp Hstft]]]]].
  exists padded. repeat (split; [assumption|]).
  unfold logmelfilterbank, numpy, torch_Tensor. rewrite Hstft. cbn [bind].
  unfold np_abs_complex. rewrite amap_tabulate2, transpose_tabulate2.
  assert (Hfmax : match fmax with
                  | Some f => Ok f
                  | None => Ok (IZR rate / 2)
                  end
                  = Ok match fmax with Some f => f | None => IZR rate / 2 end)
    by (destruct fmax; reflexivity).
  rewrite Hfmax. cbn [bind Librosa.filters_mel].
  rewrite transpose_tabulate2, dot_tabulate2. cbn [bind].
  unfold log10, maximum. rewrite !amap_tabulate2, transpose_tabulate2.
  reflexivity.
Qed.

(** X10: on a valid mono waveform, entry (m, t) of the output of
    [logmelfilterbank] is the base-10 logarithm of the maximum of epsilon
    and the m-th mel filter applied to the magnitude spectrum of frame t of
    the reflect-padded signal, as a float32: the three transpositions in
    the code line up, mel filters on the first axis and frames on the
    second. *)
Theorem logmelfilterbank_entry
    (ext : Collaborators) (self : AudioPreprocessor) (n : nat)
    (samples : list fp) (rate : Z) (m t : nat) :
  forallb isfinite samples = true -> samples <> [] ->
  (1 <= n_fft self)%nat -> (1 <= hop_length self)%nat ->
  (m < mel_buckets self)%nat ->
  (t < Librosa.frame_count (length samples + 2 * (n_fft self / 2))
         (n_fft self) (hop_length self))%nat ->
  exists padded out,
    Librosa.np_pad_reflect samples (n_fft self / 2) = Ok padded /\
    logmelfilterbank ext self {| shape := [n]; data := samples |}
      (Some rate) default_fmin default_fmax default_eps = Ok out /\
    get2 NaN out m t
    = to_float32
        (np_log10
           (np_maximum (Fin default_eps)
              (fsum
                 (map (fun k =>
                         fmul
                           (hypot
                              (fst (Librosa.rfft_bin padded (n_fft self)
                                      (hop_length self) t k))
                              (snd (Librosa.rfft_bin padded (n_fft self)
                                      (hop_length self) t k)))
                           (Fin (mel_weights ext rate (n_fft self)
                                   (mel_buckets self) 40 8000 m k)))
                      (seq 0 (1 + n_fft self / 2)))))).
Proof.
  intros Hfin Hne HN Hhop Hm Ht.
  destruct (@logmelfilterbank_formula ext self n samples rate default_fmin
              default_fmax default_eps Hfin Hne HN Hhop)
    as [padded [Hp [Hlen [_ [_ Hout]]]]].
  exists padded. eexists. split; [exact Hp|]. split; [exact Hout|].
  rewrite get2_tabulate2; [reflexivity|exact Hm|].
  rewrite Hlen. exact Ht.
Qed.

Lemma logmelfilterbank_entry_witness :
  exists padded out,
    Librosa.np_pad_reflect [Fin 1; Fin 2] (2 / 2) = Ok padded /\
    logmelfilterbank stand_in (__init__ 16000 None 2 1 2)
      {| shape := [2]%nat; data := [Fin 1; Fin 2] |}
      (Some 16000%Z) default_fmin default_fmax default_eps = Ok out /\
    get2 NaN out 0 0
    = to_float32
        (np_log10
           (np_maximum (Fin default_eps)
              (fsum
                 (map (fun k =>
                         fmul
                           (hypot
                              (fst (Librosa.rfft_bin padded 2 1 0 k))
                              (snd (Librosa.rfft_bin padded 2 1 0 k)))
                           (Fin 1))
                      (seq 0 (1 + 2 / 2)))))).
Proof.
  apply (@logmelfilterbank_entry stand_in (__init__ 16000 None 2 1 2) 2%nat
           [Fin 1; Fin 2] 16000 0%nat 0%nat).
  - reflexivity.
  - discriminate.
  - apply Nat.leb_le. reflexivity.
  - apply Nat.leb_le. reflexivity.
  - apply Nat.ltb_lt. reflexivity.
  - apply Nat.ltb_lt. reflexivity.
Defined.

Lemma stft_mono_inv (y : ndarray fp) (N hop : nat) (m : ndarray (fp * fp)) :
  Librosa.stft y N hop = Ok m ->
  (exists n, shape y = [n]) /\ all_finite y = true /\ data y <> [] /\
  (1 <= N)%nat /\ (1 <= hop)%nat.
Proof.
  intros H. pose proof (stft_inv _ _ _ H) as [Hfin [padded [Hp [HN [Hhop _]]]]].
  unfold Librosa.stft in H.
  destruct (Librosa.valid_audio true y) as [[]|e] eqn:Hv; [|discriminate].
  apply valid_audio_mono_inv in Hv. destruct Hv as [Hshape _].
  split; [exact Hshape|]. split; [exact Hfin|]. split; [|lia].
  intros Hempty. rewrite Hempty in Hp.
  destruct (N / 2)%nat eqn:Hhalf; [|discriminate Hp].
  injection Hp as <-. simpl in HN. lia.
Qed.

(** X11: given a sampling rate, [logmelfilterbank] returns a spectrogram
    exactly when the audio has one axis, every sample is finite, there is at
    least one sample, and n_fft and hop_length are positive; in every other
    case it raises. *)
Theorem logmelfilterbank_returns_iff
    (ext : Collaborators) (self : AudioPreprocessor) (audio : ndarray fp)
    (rate : Z) (fmin fmax : option R) (eps : R) :
  (exists out,
     logmelfilterbank ext self audio (Some rate) fmin fmax eps = Ok out)
  <->
  ((exists n, shape audio = [n]) /\ all_finite audio = true /\
   data audio <> [] /\ (1 <= n_fft self)%nat /\ (1 <= hop_length self)%nat).
Proof.
  split.
  - intros [out H]. unfold logmelfilterbank, numpy in H.
    destruct (Librosa.stft audio (n_fft self) (hop_length self))
      as [m|e] eqn:Hstft; [|discriminate].
    exact (stft_mono_inv _ _ _ Hstft).
  - intros [[n Hn] [Hfin [Hne [HN Hhop]]]].
    destruct audio as [sh samples]. cbn [shape data] in *. subst sh.
    destruct (@logmelfilterbank_formula ext self n samples rate fmin fmax eps
                Hfin Hne HN Hhop) as [padded [_ [_ [_ [_ Hout]]]]].
    eexists. exact Hout.
Qed.

Lemma fsum_of_zeros {A : Type} (f : A -> fp) (l : list A) :
  (forall a, In a l -> f a = Fin 0) -> fsum (map f l) = Fin 0.
Proof.
  intros H. unfold fsum.
  assert (Hgen : forall acc, acc = Fin 0 ->
                   fold_left fadd (map f l) acc = Fin 0).
  { induction l as [|a l IH]; intros acc Hacc; [exact Hacc|].
    cbn [map fold_left]. apply IH.
    - intros b Hb. apply H. right; exact Hb.
    - rewrite Hacc, (H a) by (left; reflexivity). cbn [fadd].
      f_equal. ring. }
  apply Hgen. reflexivity.
Qed.

Lemma hypot_zero : hypot (Fin 0) (Fin 0) = Fin 0.
Proof.
  cbn [hypot fmul fadd fsqrt].
  replace (0 * 0 + 0 * 0) with 0 by ring.
  destruct (Rlt_dec 0 0); [lra|]. rewrite sqrt_0. reflexivity.
Qed.

Lemma nth_repeat_in_range {A : Type} (a d : A) (n i : nat) :
  (i < n)%nat -> nth i (repeat a n) d = a.
Proof.
  revert i; induction n as [|n IH]; intros i Hi; [lia|].
  destruct i as [|i]; [reflexivity|]. cbn [repeat nth]. apply IH. lia.
Qed.

(** X12: on digital silence every entry of the output of [logmelfilterbank]
    is the floor, the float32 base-10 logarithm of epsilon, whatever the mel
    filter weights are: every mel energy is zero, the maximum with epsilon
    is epsilon. *)
Theorem logmelfilterbank_of_silence
    (ext : Collaborators) (self : AudioPreprocessor) (k : nat) (rate : Z) :
  (1 <= n_fft self)%nat -> (1 <= hop_length self)%nat ->
  logmelfilterbank ext self (array1 (repeat (Fin 0) (S k))) (Some rate)
    default_fmin default_fmax default_eps
  = Ok (tabulate2 (mel_buckets self)
          (Librosa.frame_count (S k + 2 * (n_fft self / 2)) (n_fft self)
             (hop_length self))
          (fun _ _ => to_float32 (np_log10 (Fin default_eps)))).
Proof.
  intros HN Hhop. set (samples := repeat (Fin 0) (S k)).
  assert (Hfin : forallb isfinite samples = true).
  { apply forallb_forall. intros v Hv. apply repeat_spec in Hv.
    subst v. reflexivity. }
  assert (Hne : samples <> []) by discriminate.
  destruct (@logmelfilterbank_formula ext self (length samples) samples rate
              default_fmin default_fmax default_eps Hfin Hne HN Hhop)
    as [padded [Hp [Hlen [_ [HNp Hout]]]]].
  unfold array1. rewrite Hout. f_equal.
  assert (HL : length samples = S k) by apply repeat_length.
  rewrite Hlen, HL.
  assert (Hzero : forall i, (i < length padded)%nat ->
                    nth i padded NaN = Fin 0).
  { intros i Hi. unfold Librosa.np_pad_reflect in Hp.
    assert (Hpd : padded
                  = map (fun p => nth (Librosa.reflect_index (length samples)
                                         (Z.of_nat p
                                          - Z.of_nat (n_fft self / 2)))
                                      samples NaN)
                        (seq 0 (length samples + 2 * (n_fft self / 2)))).
    { unfold samples in Hp |- *. cbn [repeat] in Hp |- *.
      destruct (n_fft self / 2)%nat; injection Hp as <-; reflexivity. }
    rewrite Hpd. rewrite Hpd, length_map, length_seq in Hi.
    rewrite (nth_indep _ NaN
               (nth (Librosa.reflect_index (length samples)
                       (Z.of_nat 0 - Z.of_nat (n_fft self / 2)))
                    samples NaN))
      by (rewrite length_map, length_seq; exact Hi).
    rewrite (map_nth (fun p => nth (Librosa.reflect_index (length samples)
                                      (Z.of_nat p
                                       - Z.of_nat (n_fft self / 2)))
                                   samples NaN)).
    unfold samples at 2. apply nth_repeat_in_range.
    rewrite <- HL. apply reflect_index_bound. lia. }
  apply tabulate2_ext. intros m t Hm Ht.
  assert (Hbin : forall j,
             Librosa.rfft_bin padded (n_fft self) (hop_length self) t j
             = (Fin 0, Fin 0)).
  { intros j. unfold Librosa.rfft_bin.
    f_equal; apply fsum_of_zeros; intros i Hi; apply in_seq in Hi;
      unfold Librosa.windowed;
      rewrite Hzero
        by (apply frame_sample_in_range with (N := n_fft self);
            try lia; rewrite Hlen, HL; exact Ht);
      cbn [fmul]; f_equal; ring. }
  rewrite fsum_of_zeros.
  - cbn [np_maximum]. rewrite Rmax_left; [reflexivity|].
    unfold default_eps. left.
    apply Rdiv_lt_0_compat; [lra|apply pow_lt; lra].
  - intros j _. rewrite Hbin. cbn [fst snd]. rewrite hypot_zero.
    cbn [fmul]. f_equal. ring.
Qed.

Lemma logmelfilterbank_of_silence_witness :
  logmelfilterbank stand_in (__init__ 16000 None 80 256 1024)
    (array1 (repeat (Fin 0) (S 4095))) (Some 16000%Z)
    default_fmin default_fmax default_eps
  = Ok (tabulate2 80
          (Librosa.frame_count (S 4095 + 2 * (1024 / 2)) 1024 256)
          (fun _ _ => to_float32 (np_log10 (Fin default_eps)))).
Proof.
  apply (@logmelfilterbank_of_silence stand_in
           (__init__ 16000 None 80 256 1024) 4095 16000).
  - apply Nat.leb_le. reflexivity.
  - apply Nat.leb_le. reflexivity.
Defined.

(** ** The raw mel-spectrogram path *)

Lemma mu_roundtrip_finite (xs : list fp) :
  forallb isfinite
    (map (Torchaudio.mu_law_decoding 256)
         (map (Torchaudio.mu_law_encoding 256) xs)) = true.
Proof.
  apply forallb_forall. intros v Hv.
  apply in_map_iff in Hv. destruct Hv as [code [<- _]].
  rewrite mu_law_decoding_real. reflexivity.
Qed.

(** X13: with normalize=False, [audio_to_mel_spec_tensor] returns a
    spectrogram for every non-empty mono waveform with samples in [-1, 1],
    whether or not an output rate was configured, provided n_fft and
    hop_length are positive: a well-formed array, mel buckets first, with
    1 + (L + 2 (n_fft // 2) - n_fft) // hop_length frames. *)
Theorem raw_mel_spec_of_mono
    (ext : Collaborators) (input_sr : Z) (output_sr : option Z)
    (melspec_buckets hop n len : nat) (xs : list R) :
  xs <> [] -> Forall (fun x => - 1 <= x <= 1) xs ->
  (1 <= n)%nat -> (1 <= hop)%nat ->
  exists out,
    audio_to_mel_spec_tensor ext
      (__init__ input_sr output_sr melspec_buckets hop n)
      {| shape := [len]; data := map Fin xs |} false = Ok out /\
    shape out
    = [melspec_buckets;
       Librosa.frame_count (length xs + 2 * (n / 2)) n hop] /\
    well_formed out.
Proof.
  intros Hne Hxs HN Hhop.
  set (self := __init__ input_sr output_sr melspec_buckets hop n).
  set (samples := map (Torchaudio.mu_law_decoding 256)
                      (map (Torchaudio.mu_law_encoding 256) (map Fin xs))).
  assert (Hs : samples <> []) by (destruct xs; [congruence|discriminate]).
  destruct (@logmelfilterbank_formula ext self len samples input_sr
              default_fmin default_fmax default_eps
              (mu_roundtrip_finite (map Fin xs)) Hs HN Hhop)
    as [padded [_ [Hlen [_ [_ Hout]]]]].
  assert (Hcall : audio_to_mel_spec_tensor ext self
                    {| shape := [len]; data := map Fin xs |} false
                  = logmelfilterbank ext self
                      {| shape := [len]; data := samples |}
                      (Some input_sr) default_fmin default_fmax default_eps).
  { unfold audio_to_mel_spec_tensor. rewrite (torch_Tensor_unit [len] Hxs).
    reflexivity. }
  eexists. split; [rewrite Hcall; exact Hout|]. split.
  - cbn [tabulate2 shape]. rewrite Hlen. unfold samples.
    rewrite !length_map. reflexivity.
  - apply tabulate2_well_formed.
Qed.

Lemma raw_mel_spec_of_mono_witness :
  exists out,
    audio_to_mel_spec_tensor stand_in (__init__ 16000 None 80 256 1024)
      {| shape := [2]%nat; data := map Fin [1 / 2; - (1 / 4)] |} false
    = Ok out /\
    shape out
    = [80%nat;
       Librosa.frame_count (length [1 / 2; - (1 / 4)] + 2 * (1024 / 2))
         1024 256] /\
    well_formed out.
Proof.
  apply (@raw_mel_spec_of_mono stand_in 16000 None 80 256 1024 2
           [1 / 2; - (1 / 4)]).
  - discriminate.
  - repeat constructor; lra.
  - apply Nat.leb_le. reflexivity.
  - apply Nat.leb_le. reflexivity.
Defined.

(** ** The mu-law codes *)

Lemma to_int64_floor (u : R) (k : Z) :
  (0 <= k < 2 ^ 63)%Z -> IZR k <= u < IZR k + 1 -> to_int64 (Fin u) = k.
Proof.
  intros Hk Hu. assert (H0 : 0 <= IZR k) by (apply IZR_le; lia).
  assert (Hfloor : k = Int_part u) by (apply Int_part_spec; lra).
  unfold to_int64, Rtrunc. destruct (Rle_dec 0 u); [|lra].
  cbv zeta. rewrite <- Hfloor.
  destruct (Z.leb_spec (- 2 ^ 63) k); [|lia].
  destruct (Z.ltb_spec k (2 ^ 63)); [|lia]. reflexivity.
Qed.

Lemma mu_law_encode_decode (k : Z) :
  (0 <= k <= 255)%Z ->
  Torchaudio.mu_law_encoding 256 (Torchaudio.mu_law_decoding 256 k) = k.
Proof.
  intros Hk. rewrite mu_law_decoding_real, mu_law_encoding_real.
  rewrite compand_expand. apply to_int64_floor; [lia|]. lra.
Qed.

(** X14: decoding mu-law codes and encoding them again gives the codes
    back: [apply_mu_law] of the decoded tensor is the tensor of codes, for
    codes in [0, 255]. *)
Theorem apply_mu_law_after_decode
    (input_sr : Z) (output_sr : option Z) (melspec_buckets hop n : nat)
    (codes : ndarray Z) :
  let self := __init__ input_sr output_sr melspec_buckets hop n in
  Forall (fun c => (0 <= c <= 255)%Z) (data codes) ->
  apply_mu_law self (Torchaudio.decode (mu_decode self) codes) = codes.
Proof.
  intros self Hcodes. destruct codes as [sh cs]. cbn [data] in Hcodes.
  unfold apply_mu_law, self. cbn [mu_encode mu_decode __init__].
  unfold Torchaudio.encode, Torchaudio.decode, amap. cbn [shape data].
  f_equal. rewrite map_map.
  induction Hcodes as [|c cs Hc _ IH]; [reflexivity|].
  cbn [map]. rewrite mu_law_encode_decode by exact Hc. f_equal. exact IH.
Qed.

Lemma apply_mu_law_after_decode_witness :
  let self := __init__ 16000 None 80 256 1024 in
  let codes := {| shape := [3]%nat; data := [0; 128; 255]%Z |} in
  apply_mu_law self (Torchaudio.decode (mu_decode self) codes) = codes.
Proof.
  apply (@apply_mu_law_after_decode 16000 None 80 256 1024
           {| shape := [3]%nat; data := [0; 128; 255]%Z |}).
  repeat constructor; cbv; discriminate.
Defined.

Lemma to_float32_decoded (k : Z) :
  (0 <= k <= 255)%Z ->
  to_float32 (Torchaudio.mu_law_decoding 256 k)
  = Torchaudio.mu_law_decoding 256 k.
Proof.
  intros Hk. rewrite mu_law_decoding_real.
  apply to_float32_unit, expand_range.
  assert (0 <= IZR k <= 255) by (split; apply IZR_le; lia). lra.
Qed.

(** X15: the mu-law round trip that [audio_to_mel_spec_tensor] applies is a
    projection on waveforms with samples in [-1, 1]: the raw spectrogram of
    an already round-tripped waveform is the raw spectrogram of the
    waveform. *)
Theorem raw_mel_spec_of_roundtripped
    (ext : Collaborators) (input_sr : Z) (output_sr : option Z)
    (melspec_buckets hop n : nat) (sh : list nat) (xs : list R) :
  let self := __init__ input_sr output_sr melspec_buckets hop n in
  let audio := {| shape := sh; data := map Fin xs |} in
  Forall (fun x => - 1 <= x <= 1) xs ->
  audio_to_mel_spec_tensor ext self
    (Torchaudio.decode (mu_decode self)
       (Torchaudio.encode (mu_encode self) audio)) false
  = audio_to_mel_spec_tensor ext self audio false.
Proof.
  intros self audio Hxs.
  unfold audio_to_mel_spec_tensor, mel_spec_orig_sr, torch_Tensor, self.
  cbn [mu_encode mu_decode __init__].
  unfold Torchaudio.encode, Torchaudio.decode, amap, audio. cbn [shape data].
  do 3 f_equal. rewrite !map_map.
  apply map_ext_in. intros x Hx. rewrite Forall_forall in Hxs.
  rewrite (to_float32_unit (Hxs x Hx)).
  rewrite to_float32_decoded by (apply (mu_law_code (Hxs x Hx))).
  rewrite mu_law_encode_decode; [reflexivity|].
  apply (mu_law_code (Hxs x Hx)).
Qed.

Lemma raw_mel_spec_of_roundtripped_witness :
  let self := __init__ 16000 None 80 256 1024 in
  let audio := {| shape := [2]%nat; data := map Fin [1 / 2; - (1 / 4)] |} in
  audio_to_mel_spec_tensor stand_in self
    (Torchaudio.decode (mu_decode self)
       (Torchaudio.encode (mu_encode self) audio)) false
  = audio_to_mel_spec_tensor stand_in self audio false.
Proof.
  apply (@raw_mel_spec_of_roundtripped stand_in 16000 None 80 256 1024
           [2]%nat [1 / 2; - (1 / 4)]).
  repeat constructor; lra.
Defined.

Lemma compand_monotone (x y : R) : x <= y -> Spec.compand x <= Spec.compand y.
Proof.
  intros Hxy. pose proof ln_256_pos as Hc. unfold Spec.compand.
  assert (Hpos : forall a, 0 <= a -> 0 <= ln (1 + 255 * a))
    by (intros a Ha; rewrite <- ln_1; apply ln_monotone; lra).
  assert (Hdiv : forall a b, a <= b -> a / ln 256 <= b / ln 256).
  { intros a b Hab. apply Rmult_le_compat_r; [|exact Hab].
    left. apply Rinv_0_lt_compat, Hc. }
  destruct (Rsign_cases x) as [[Sx [-> ->]]|[[Sx [-> ->]]|[Sx [-> ->]]]];
    destruct (Rsign_cases y) as [[Sy [-> ->]]|[[Sy [-> ->]]|[Sy [-> ->]]]];
    try lra; apply Hdiv;
    try (pose proof (Hpos (- x) ltac:(lra)));
    try (pose proof (Hpos y ltac:(lra)));
    try (assert (ln (1 + 255 * x) <= ln (1 + 255 * y))
           by (apply ln_monotone; lra));
    try (assert (ln (1 + 255 * - y) <= ln (1 + 255 * - x))
           by (apply ln_monotone; lra));
    lra.
Qed.

(** X16: mu-law encoding preserves the order of amplitudes in [-1, 1]: a
    larger sample never gets a smaller code. *)
Theorem mu_law_encoding_monotone (x y : R) :
  - 1 <= x -> x <= y -> y <= 1 ->
  (Torchaudio.mu_law_encoding 256 (Fin x)
   <= Torchaudio.mu_law_encoding 256 (Fin y))%Z.
Proof.
  intros Hx Hxy Hy.
  destruct (@mu_law_code x ltac:(lra)) as [_ [Hkx _]].
  destruct (@mu_law_code y ltac:(lra)) as [_ [_ Hky]].
  pose proof (compand_monotone Hxy) as Hmono.
  apply Z.lt_succ_r, lt_IZR. rewrite succ_IZR. lra.
Qed.

Lemma mu_law_encoding_monotone_witness :
  (Torchaudio.mu_law_encoding 256 (Fin (- (1 / 4)))
   <= Torchaudio.mu_law_encoding 256 (Fin (1 / 2)))%Z.
Proof.
  apply (@mu_law_encoding_monotone (- (1 / 4)) (1 / 2)); lra.
Defined.

Lemma beyond_full_scale_power : 256 ^ 256 <= (26365 / 100) ^ 255.
Proof.
  unfold Rdiv. rewrite Rpow_mult_distr, pow_inv.
  apply Rmult_le_reg_r with (100 ^ 255); [apply pow_lt; lra|].
  rewrite Rmult_assoc, Rinv_l, Rmult_1_r by (apply pow_nonzero; lra).
  rewrite !pow_IZR, <- mult_IZR. apply IZR_le, Z.leb_le.
  vm_compute. reflexivity.
Qed.

(** X17: [apply_mu_law] does not clip: an amplitude from 1.03 up to 2 gets a
    code above 255, between 256 and 383. *)
Theorem mu_law_encoding_beyond_full_scale (x : R) :
  103 / 100 <= x <= 2 ->
  (256 <= Torchaudio.mu_law_encoding 256 (Fin x) <= 383)%Z.
Proof.
  intros Hx. pose proof ln_256_pos as Hc.
  assert (HF : 256 / 255 <= Spec.compand x <= 2).
  { unfold Spec.compand.
    destruct (Rsign_cases x) as [[_ [-> ->]]|[[Hn _]|[Hn _]]]; try lra.
    assert (Hlow : 256 * ln 256 <= 255 * ln (26365 / 100)).
    { replace 256 with (INR 256) at 1 by (rewrite INR_IZR_INZ; reflexivity).
      replace 255 with (INR 255) by (rewrite INR_IZR_INZ; reflexivity).
      rewrite <- !ln_pow by lra.
      apply ln_monotone; [apply pow_lt; lra|apply beyond_full_scale_power]. }
    assert (Hln : ln (26365 / 100) <= ln (1 + 255 * x))
      by (apply ln_monotone; lra).
    assert (Hup : ln (1 + 255 * x) <= 2 * ln 256).
    { replace (2 * ln 256) with (ln (256 ^ 2))
        by (rewrite ln_pow by lra; simpl INR; lra).
      apply ln_monotone; lra. }
    split.
    - apply Rmult_le_reg_r with (ln 256); [exact Hc|].
      replace (1 * ln (1 + 255 * x) / ln 256 * ln 256)
        with (ln (1 + 255 * x)) by (field; lra).
      lra.
    - apply Rmult_le_reg_r with (ln 256); [exact Hc|].
      replace (1 * ln (1 + 255 * x) / ln 256 * ln 256)
        with (ln (1 + 255 * x)) by (field; lra).
      lra. }
  rewrite mu_law_encoding_real.
  set (u := (Spec.compand x + 1) / 2 * 255 + 1 / 2).
  assert (Hu : 256 <= u <= 383) by (unfold u; lra).
  pose proof (base_Int_part u) as [Hb1 Hb2].
  assert (255 < Int_part u)%Z by (apply lt_IZR; lra).
  assert (Int_part u < 384)%Z by (apply lt_IZR; lra).
  rewrite (@to_int64_floor u (Int_part u)); [lia|lia|lra].
Qed.

Lemma mu_law_encoding_beyond_full_scale_witness :
  (256 <= Torchaudio.mu_law_encoding 256 (Fin 2) <= 383)%Z.
Proof.
  apply (@mu_law_encoding_beyond_full_scale 2). lra.
Defined.

(** X18: with mulaw=True and normalize=False, [audio_to_wave_tensor] returns
    a tensor of codes of the shape of the input, one code per sample, and
    for samples in [-1, 1] every code lies in [0, 255]. *)
Theorem raw_mu_law_wave_tensor
    (ext : Collaborators) (input_sr : Z) (output_sr : option Z)
    (melspec_buckets hop n : nat) (sh : list nat) (xs : list R) :
  Forall (fun x => - 1 <= x <= 1) xs ->
  exists codes,
    audio_to_wave_tensor ext
      (__init__ input_sr output_sr melspec_buckets hop n)
      {| shape := sh; data := map Fin xs |} false true
    = Ok (LongTensor codes) /\
    shape codes = sh /\ length (data codes) = length xs /\
    Forall (fun c => (0 <= c <= 255)%Z) (data codes).
Proof.
  intros Hxs. eexists. split; [reflexivity|].
  cbn [apply_mu_law __init__ mu_encode Torchaudio.encode amap torch_Tensor
         shape data].
  split; [reflexivity|]. split; [rewrite !length_map; reflexivity|].
  rewrite !map_map. apply Forall_map.
  eapply Forall_impl; [|exact Hxs]. intros x Hx.
  cbv beta in Hx. rewrite (to_float32_unit Hx). apply (mu_law_code Hx).
Qed.

Lemma raw_mu_law_wave_tensor_witness :
  exists codes,
    audio_to_wave_tensor stand_in (__init__ 16000 None 80 256 1024)
      {| shape := [2]%nat; data := map Fin [1 / 2; - (1 / 4)] |} false true
    = Ok (LongTensor codes) /\
    shape codes = [2]%nat /\
    length (data codes) = length [1 / 2; - (1 / 4)] /\
    Forall (fun c => (0 <= c <= 255)%Z) (data codes).
Proof.
  apply (@raw_mu_law_wave_tensor stand_in 16000 None 80 256 1024 [2]%nat
           [1 / 2; - (1 / 4)]).
  repeat constructor; lra.
Defined.

(** ** Validation happens on the multi-channel branch only *)

(** X19: a 2-D waveform with a sample that is not finite is rejected: the
    mixdown raises ParameterError, and with it [normalize_audio], before the
    meter is consulted.  (A 1-D waveform is not validated: it is returned
    as it is.) *)
Theorem to_mono_rejects_nonfinite_channels
    (ext : Collaborators) (self : AudioPreprocessor) (frames channels : nat)
    (vs : list fp) (v : fp) :
  length vs = (frames * channels)%nat -> In v vs -> isfinite v = false ->
  let audio := {| shape := [frames; channels]; data := vs |} in
  to_mono audio = Raise ParameterError /\
  normalize_audio ext self audio = Raise ParameterError.
Proof.
  intros Hlen Hin Hv audio.
  assert (H : to_mono audio = Raise ParameterError).
  { unfold to_mono. cbn [audio shape length Nat.eqb].
    unfold Librosa.to_mono, Librosa.valid_audio.
    assert (Hfin : all_finite (transpose NaN audio) = false).
    { unfold all_finite. apply not_true_is_false. intros Hall.
      rewrite forallb_forall in Hall.
      specialize (Hall v (In_transpose NaN frames channels vs v Hlen Hin)).
      congruence. }
    rewrite Hfin, andb_false_r. reflexivity. }
  split; [exact H|]. unfold normalize_audio. rewrite H. reflexivity.
Qed.

Lemma to_mono_rejects_nonfinite_channels_witness :
  let audio := {| shape := [1; 2]%nat; data := [Fin 0; NaN] |} in
  to_mono audio = Raise ParameterError /\
  normalize_audio stand_in (__init__ 16000 None 80 256 1024) audio
  = Raise ParameterError.
Proof.
  apply (@to_mono_rejects_nonfinite_channels stand_in
           (__init__ 16000 None 80 256 1024) 1 2 [Fin 0; NaN] NaN).
  - reflexivity.
  - right; left; reflexivity.
  - reflexivity.
Defined.

(** ** Polarity *)

Lemma nth_map_Fin (xs : list R) (i : nat) :
  (i < length xs)%nat -> nth i (map Fin xs) NaN = Fin (nth i xs 0).
Proof.
  intros Hi.
  rewrite (nth_indep _ NaN (Fin 0)) by (rewrite length_map; exact Hi).
  apply (map_nth Fin).
Qed.

Lemma np_pad_reflect_nth (y padded : list fp) (pad i : nat) :
  Librosa.np_pad_reflect y pad = Ok padded -> (i < length padded)%nat ->
  nth i padded NaN
  = nth (Librosa.reflect_index (length y) (Z.of_nat i - Z.of_nat pad)) y NaN.
Proof.
  intros Hp Hi.
  assert (Hpd : padded
                = map (fun p => nth (Librosa.reflect_index (length y)
                                       (Z.of_nat p - Z.of_nat pad)) y NaN)
                      (seq 0 (length y + 2 * pad))).
  { unfold Librosa.np_pad_reflect in Hp.
    destruct y as [|v y], pad as [|pad]; try discriminate;
      injection Hp as <-; reflexivity. }
  rewrite Hpd in Hi |- *. rewrite length_map, length_seq in Hi.
  rewrite (nth_indep _ NaN
             (nth (Librosa.reflect_index (length y)
                     (Z.of_nat 0 - Z.of_nat pad)) y NaN))
    by (rewrite length_map, length_seq; exact Hi).
  rewrite (map_nth (fun p => nth (Librosa.reflect_index (length y)
                                    (Z.of_nat p - Z.of_nat pad)) y NaN)).
  rewrite seq_nth by exact Hi. reflexivity.
Qed.

Lemma fold_fadd_negated {A : Type} (f g : A -> fp) (l : list A) (s : R) :
  (forall a, In a l -> exists r, f a = Fin r /\ g a = Fin (- r)) ->
  exists total,
    fold_left fadd (map f l) (Fin s) = Fin total /\
    fold_left fadd (map g l) (Fin (- s)) = Fin (- total).
Proof.
  revert s; induction l as [|a l IH]; intros s H.
  - exists s. split; reflexivity.
  - destruct (H a (or_introl eq_refl)) as [r [Hf Hg]].
    destruct (IH (s + r)) as [total [H1 H2]].
    { intros b Hb. apply H. right; exact Hb. }
    exists total. cbn [map fold_left]. rewrite Hf, Hg. cbn [fadd].
    split; [exact H1|].
    replace (- s + - r) with (- (s + r)) by ring. exact H2.
Qed.

Lemma fsum_negated {A : Type} (f g : A -> fp) (l : list A) :
  (forall a, In a l -> exists r, f a = Fin r /\ g a = Fin (- r)) ->
  exists total, fsum (map f l) = Fin total /\ fsum (map g l) = Fin (- total).
Proof.
  intros H. destruct (fold_fadd_negated f g l 0 H) as [total [H1 H2]].
  exists total. unfold fsum. split; [exact H1|].
  replace (Fin 0) with (Fin (- 0)) by (f_equal; ring). exact H2.
Qed.

Lemma hypot_negated (a b : R) :
  hypot (Fin (- a)) (Fin (- b)) = hypot (Fin a) (Fin b).
Proof.
  cbn [hypot fmul fadd].
  replace (- a * - a + - b * - b) with (a * a + b * b) by ring.
  reflexivity.
Qed.

(** X20: the spectrogram does not see polarity: on a non-empty mono
    waveform of finite samples, with n_fft and hop_length positive,
    [logmelfilterbank] returns the same result for the waveform and for its
    negation. *)
Theorem logmelfilterbank_of_negated
    (ext : Collaborators) (self : AudioPreprocessor) (n : nat) (xs : list R)
    (rate : Z) :
  xs <> [] -> (1 <= n_fft self)%nat -> (1 <= hop_length self)%nat ->
  logmelfilterbank ext self
    {| shape := [n]; data := map Fin (map Ropp xs) |} (Some rate)
    default_fmin default_fmax default_eps
  = logmelfilterbank ext self {| shape := [n]; data := map Fin xs |}
      (Some rate) default_fmin default_fmax default_eps.
Proof.
  intros Hne HN Hhop.
  assert (Hfin : forall l : list R, forallb isfinite (map Fin l) = true).
  { intros l. apply forallb_forall. intros v Hv.
    apply in_map_iff in Hv. destruct Hv as [x [<- _]]. reflexivity. }
  assert (Hne1 : map Fin xs <> []) by (destruct xs; [congruence|discriminate]).
  assert (Hne2 : map Fin (map Ropp xs) <> [])
    by (destruct xs; [congruence|discriminate]).
  destruct (@logmelfilterbank_formula ext self n (map Fin xs) rate
              default_fmin default_fmax default_eps (Hfin xs) Hne1 HN Hhop)
    as [padded [Hp [Hlen [_ [HNp ->]]]]].
  destruct (@logmelfilterbank_formula ext self n (map Fin (map Ropp xs)) rate
              default_fmin default_fmax default_eps (Hfin _) Hne2 HN Hhop)
    as [padded' [Hp' [Hlen' [_ [_ ->]]]]].
  assert (Hsame : length padded' = length padded)
    by (rewrite Hlen, Hlen', !length_map; reflexivity).
  rewrite Hsame. f_equal.
  assert (HL : (1 <= length xs)%nat)
    by (destruct xs; [congruence|simpl; lia]).
  assert (Hrel : forall i, (i < length padded)%nat ->
                   exists r, nth i padded NaN = Fin r /\
                             nth i padded' NaN = Fin (- r)).
  { intros i Hi.
    set (j := Librosa.reflect_index (length xs)
                (Z.of_nat i - Z.of_nat (n_fft self / 2))).
    assert (Hj : (j < length xs)%nat) by (apply reflect_index_bound, HL).
    exists (nth j xs 0). split.
    - rewrite (np_pad_reflect_nth _ _ Hp Hi), length_map. fold j.
      apply nth_map_Fin, Hj.
    - rewrite (np_pad_reflect_nth _ _ Hp') by (rewrite Hsame; exact Hi).
      rewrite !length_map. fold j.
      rewrite nth_map_Fin by (rewrite length_map; exact Hj). f_equal.
      rewrite (nth_indep _ 0 (- 0)) by (rewrite length_map; exact Hj).
      apply (map_nth Ropp). }
  apply tabulate2_ext. intros m t Hm Ht. do 4 f_equal.
  apply map_ext_in. intros k Hk. f_equal.
  assert (Hsample : forall i, In i (seq 0 (n_fft self)) ->
                      (t * hop_length self + i < length padded)%nat).
  { intros i Hi. apply in_seq in Hi.
    apply frame_sample_in_range with (N := n_fft self); lia. }
  unfold Librosa.rfft_bin. cbn [fst snd].
  match goal with
  | |- hypot (fsum (map ?g1 ?l)) (fsum (map ?g2 ?l))
       = hypot (fsum (map ?f1 ?l)) (fsum (map ?f2 ?l)) =>
      destruct (fsum_negated f1 g1 l) as [re [Hre Hre']];
        [|destruct (fsum_negated f2 g2 l) as [im [Him Him']]]
  end.
  - intros i Hi. destruct (Hrel _ (Hsample i Hi)) as [r [Hr Hr']].
    unfold Librosa.windowed. rewrite Hr, Hr'. cbn [fmul].
    eexists. split; [reflexivity|]. f_equal. ring.
  - intros i Hi. destruct (Hrel _ (Hsample i Hi)) as [r [Hr Hr']].
    unfold Librosa.windowed. rewrite Hr, Hr'. cbn [fmul].
    eexists. split; [reflexivity|]. f_equal. ring.
  - rewrite Hre, Hre', Him, Him'. apply hypot_negated.
Qed.

Lemma logmelfilterbank_of_negated_witness :
  logmelfilterbank stand_in (__init__ 16000 None 80 256 1024)
    {| shape := [2]%nat; data := map Fin (map Ropp [1 / 2; - (1 / 4)]) |}
    (Some 16000%Z) default_fmin default_fmax default_eps
  = logmelfilterbank stand_in (__init__ 16000 None 80 256 1024)
      {| shape := [2]%nat; data := map Fin [1 / 2; - (1 / 4)] |}
      (Some 16000%Z) default_fmin default_fmax default_eps.
Proof.
  apply (@logmelfilterbank_of_negated stand_in
           (__init__ 16000 None 80 256 1024) 2 [1 / 2; - (1 / 4)] 16000).
  - discriminate.
  - apply Nat.leb_le. reflexivity.
  - apply Nat.leb_le. reflexivity.
Defined.
